(** * RW1 to RW2 conversion of write requests (package mimirpb, prealloc_rw2.go)

    A shallow embedding of the pooled conversion of a write request from its
    string-labelled form (RW1) to its symbol-referenced form (RW2), and of the
    release functions of the pools it draws from.

    Go slices are values with a length, a capacity and a nil state; the
    package-level pools and the requests reached through pointers live in an
    explicit [World] that every function takes and returns. *)

From stdpp Require Import base numbers list strings.

(** ** Go slices *)

(** A slice is nil, or a run of live elements followed by [spare] unused slots
    of its backing array: [len s = length (elems s)] and
    [cap s = len s + spare].  Slots past the length are never read by this
    package and carry no content here. *)
Inductive slice (A : Type) : Type :=
  | slice_nil
  | slice_mk (l : list A) (spare : nat).
Arguments slice_nil {A}.
Arguments slice_mk {A} l spare.

Definition elems {A} (s : slice A) : list A :=
  match s with slice_nil => [] | slice_mk l _ => l end.

Definition len {A} (s : slice A) : nat := length (elems s).

Definition cap {A} (s : slice A) : nat :=
  match s with slice_nil => 0 | slice_mk l spare => length l + spare end.

(** [make([]A, 0, n)] *)
Definition make {A} (n : nat) : slice A := slice_mk [] n.

(** [s[:0]] *)
Definition reslice0 {A} (s : slice A) : slice A :=
  match s with slice_nil => slice_nil | slice_mk l spare => slice_mk [] (length l + spare) end.

(** [for i := range s { s[i] = zero }], seen through [s] after the loop. *)
Definition clear {A} (zero : A) (s : slice A) : slice A :=
  match s with
  | slice_nil => slice_nil
  | slice_mk l spare => slice_mk (replicate (length l) zero) spare
  end.

(** ** Scalars *)

(** A symbol reference: [uint32] in the source.  The conversion only stores
    and copies references; the one place that computes them is the symbols
    table, which the specification describes as handing out indices into the
    symbol list. *)
Definition ref : Type := nat.
Definition int64 : Type := Z.
Definition int32 : Type := Z.

(** ** The symbols table *)

Record LabelAdapter := { Name : string; Value : string }.

(** The interface [StringSymbolizer]: one method, which may extend the
    receiver. *)
Class StringSymbolizer (T : Type) := Symbolize : string → T → ref * T.

(** Position of the first occurrence of [s]. *)
Fixpoint index_of (s : string) (l : list string) : option nat :=
  match l with
  | [] => None
  | x :: l' => if decide (x = s) then Some 0 else S <$> index_of s l'
  end.

Module Symbols.

(** Modelled from the spec: the type [CommonSymbols], declared outside
    prealloc_rw2.go; "a shared, externally supplied common symbols
    dictionary". *)
Definition CommonSymbols : Type := list string.

(** Modelled from the spec: the symbols table type, declared outside
    prealloc_rw2.go.  "Maps strings to stable integer references within one
    conversion; supports pre-seeding with a shared common symbols dictionary
    at a configurable offset"; [symbols] lists the strings registered by the
    calls so far, in first-assignment order. *)
Record Table := mkTable {
  offset : nat;
  common : list string;
  symbols : list string;
}.

(** Modelled from the spec: [ConfigureCommonSymbols], defined outside
    prealloc_rw2.go; it "pre-assigns references for every string in
    dictionary starting at offset".  A nil dictionary seeds nothing. *)
Definition ConfigureCommonSymbols (off : nat) (cs : option CommonSymbols) (t : Table) : Table :=
  {| offset := off; common := default [] cs; symbols := symbols t |}.

(** The reference [s] has in [t], if it has one: the dictionary entry at
    position [i] has reference [offset + i], and the strings registered
    later follow the common region in first-assignment order. *)
Definition lookup_ref (t : Table) (s : string) : option ref :=
  match index_of s (common t) with
  | Some i => Some (offset t + i)
  | None =>
      match index_of s (symbols t) with
      | Some j => Some (offset t + length (common t) + j)
      | None => None
      end
  end.

(** Modelled from the spec: the method [Symbolize], defined outside
    prealloc_rw2.go.  "Idempotent per distinct string within the table's
    lifetime"; "symbolizing a string already present in the common-symbols
    region returns the pre-seeded reference rather than allocating a new
    slot"; the empty string "yields a stable reference like any other
    string". *)
Definition Symbolize (s : string) (t : Table) : ref * Table :=
  match lookup_ref t s with
  | Some r => (r, t)
  | None =>
      (offset t + length (common t) + length (symbols t),
       {| offset := offset t; common := common t; symbols := symbols t ++ [s] |})
  end.

(** Modelled from the spec: the symbol list that [SymbolsPrealloc], defined
    outside prealloc_rw2.go, exports.  "The output symbol list preserves
    first-assignment order except for the pre-seeded common region, which
    occupies its configured offset range regardless of usage order."  The
    specification leaves open what the slots below the offset hold: they
    hold the empty string here. *)
Definition SymbolList (t : Table) : list string :=
  replicate (offset t) ""%string ++ common t ++ symbols t.

(** Modelled from the spec: [SymbolsPrealloc], defined outside
    prealloc_rw2.go; it "materializes the final symbol list, optionally
    reusing a caller-supplied buffer to avoid allocation".  The buffer only
    lends its capacity. *)
Definition SymbolsPrealloc (t : Table) (prealloc : slice string) : slice string :=
  slice_mk (SymbolList t) (cap prealloc - length (SymbolList t)).

End Symbols.

#[export] Instance Table_StringSymbolizer : StringSymbolizer Symbols.Table := Symbols.Symbolize.

(** ** What the package declares outside prealloc_rw2.go *)

(** The payload types that the conversion copies without looking inside, the
    capacity Go's runtime picks when [append] has to grow a slice
    ([growslice c n] is the spare room it leaves past the [n] elements
    needed, for a slice of capacity [c]), and the pools of symbols tables and
    of symbol slices with their acquire and release functions.
    [reuseSymbolsSlice] also returns the released slice as its caller sees it
    afterwards. *)
Class Env := {
  Sample : Type;
  Histogram : Type;
  float64 : Type;
  growslice : nat → nat → nat;
  SymbolsPools : Type;
  symbolsTableFromPool : SymbolsPools → Symbols.Table * SymbolsPools;
  reuseSymbolsTable : Symbols.Table → SymbolsPools → SymbolsPools;
  symbolsSliceFromPool : SymbolsPools → slice string * SymbolsPools;
  reuseSymbolsSlice : slice string → SymbolsPools → slice string * SymbolsPools;
}.

Section mimirpb.
Context `{env : Env}.

(** [append(s, xs...)]: in place while the capacity lasts, into a grown array
    otherwise; appending nothing to nil leaves nil. *)
Definition append {A} (s : slice A) (xs : list A) : slice A :=
  match s, xs with
  | slice_nil, [] => slice_nil
  | _, _ =>
      if decide (len s + length xs ≤ cap s)
      then slice_mk (elems s ++ xs) (cap s - (len s + length xs))
      else slice_mk (elems s ++ xs) (growslice (cap s) (len s + length xs))
  end.

(** ** Data model *)

Record Exemplar := {
  ex_Labels : slice LabelAdapter;
  ex_Value : float64;
  ex_TimestampMs : int64;
}.

Record ExemplarRW2 := {
  ex2_LabelsRefs : slice ref;
  ex2_Value : float64;
  ex2_Timestamp : int64;
}.

Record MetricMetadata := {
  mm_Type : int32;
  mm_MetricFamilyName : string;
  mm_Help : string;
  mm_Unit : string;
}.

Record MetadataRW2 := {
  md2_Type : int32;
  md2_HelpRef : ref;
  md2_UnitRef : ref;
}.

(** What an element of [WriteRequest.Timeseries] points to. *)
Record TimeSeries := {
  ts_Labels : slice LabelAdapter;
  ts_Samples : slice Sample;
  ts_Histograms : slice Histogram;
  ts_Exemplars : slice Exemplar;
  ts_CreatedTimestamp : int64;
}.

Record TimeSeriesRW2 := {
  ts2_LabelsRefs : slice ref;
  ts2_Samples : slice Sample;
  ts2_Histograms : slice Histogram;
  ts2_Exemplars : slice ExemplarRW2;
  ts2_Metadata : MetadataRW2;
  ts2_CreatedTimestamp : int64;
}.

(** The fields of [WriteRequest] that prealloc_rw2.go reads or writes.
    An element of [Timeseries] is a [PreallocTimeseries], which embeds a
    pointer to its [TimeSeries]; [Metadata] holds pointers too.  Either kind
    of pointer may be nil. *)
Record WriteRequest := {
  Timeseries : slice (option TimeSeries);
  Source : int32;
  Metadata : slice (option MetricMetadata);
  SymbolsRW2 : slice string;
  TimeseriesRW2 : slice TimeSeriesRW2;
  SkipLabelValidation : bool;
  SkipLabelCountValidation : bool;
  skipUnmarshalingExemplars : bool;
}.

(** [MetadataRW2{}] and [TimeSeriesRW2{}] *)
Definition MetadataRW2_zero : MetadataRW2 :=
  {| md2_Type := 0%Z; md2_HelpRef := 0; md2_UnitRef := 0 |}.

Definition TimeSeriesRW2_zero : TimeSeriesRW2 :=
  {| ts2_LabelsRefs := slice_nil; ts2_Samples := slice_nil; ts2_Histograms := slice_nil;
     ts2_Exemplars := slice_nil; ts2_Metadata := MetadataRW2_zero;
     ts2_CreatedTimestamp := 0%Z |}.

(** ** Pools and the world *)

Definition minPreallocatedTimeseriesRW2 : nat := 100.
Definition maxPreallocatedTimeseriesRW2 : nat := 10000.
Definition minPreallocatedLabelsRefs : nat := 20.
Definition maxPreallocatedLabelsRefs : nat := 200.

(** A pool is the list of the slices it retains; [Get] takes the one on top
    or, from an empty pool, what [New] makes.  Which retained slice a real
    [sync.Pool] hands out is unspecified: the theorems below hold for every
    pool content. *)
Definition ptr : Type := nat.

Record World := mkWorld {
  requests : list WriteRequest;
  preallocTimeseriesRW2SlicePool : list (slice TimeSeriesRW2);
  preallocLabelsRefsSlicePool : list (slice ref);
  symbolsPools : SymbolsPools;
}.

Definition labelsRefsSliceFromPool (pool : list (slice ref)) : slice ref * list (slice ref) :=
  match pool with
  | [] => (make minPreallocatedLabelsRefs, [])
  | s :: pool' => (s, pool')
  end.

(** The result is the released slice as its caller sees it afterwards, and
    the pool. *)
Definition reuseLabelsRefsSlice (s : slice ref) (pool : list (slice ref))
    : slice ref * list (slice ref) :=
  if decide (cap s = 0) then (s, pool)
  else if decide (maxPreallocatedLabelsRefs < cap s) then (s, pool)
  else
    let s' := clear 0 s in
    (s', reslice0 s' :: pool).

Definition timeSeriesRW2SliceFromPool (pool : list (slice TimeSeriesRW2))
    : slice TimeSeriesRW2 * list (slice TimeSeriesRW2) :=
  match pool with
  | [] => (make minPreallocatedTimeseriesRW2, [])
  | s :: pool' => (s, pool')
  end.

(** The loop of [reuseTimeSeriesRW2Slice]: every element's [LabelsRefs] goes
    through [reuseLabelsRefsSlice], then the element is zeroed. *)
Fixpoint reuseTimeSeriesRW2Elems (l : list TimeSeriesRW2) (refsPool : list (slice ref))
    : list TimeSeriesRW2 * list (slice ref) :=
  match l with
  | [] => ([], refsPool)
  | e :: l' =>
      let '(_, refsPool) := reuseLabelsRefsSlice (ts2_LabelsRefs e) refsPool in
      let '(l'', refsPool) := reuseTimeSeriesRW2Elems l' refsPool in
      (TimeSeriesRW2_zero :: l'', refsPool)
  end.

Definition reuseTimeSeriesRW2Slice (s : slice TimeSeriesRW2)
    (tsPool : list (slice TimeSeriesRW2)) (refsPool : list (slice ref))
    : slice TimeSeriesRW2 * list (slice TimeSeriesRW2) * list (slice ref) :=
  if decide (cap s = 0) then (s, tsPool, refsPool)
  else if decide (maxPreallocatedTimeseriesRW2 < cap s) then (s, tsPool, refsPool)
  else
    match s with
    | slice_nil => (s, tsPool, refsPool)
    | slice_mk l spare =>
        let '(l', refsPool) := reuseTimeSeriesRW2Elems l refsPool in
        let s' := slice_mk l' spare in
        (s', reslice0 s' :: tsPool, refsPool)
    end.

(** [ReuseRW2]: [None] is the nil dereference of [req.SymbolsRW2]. *)
Definition ReuseRW2 (req : option ptr) (w : World) : option World :=
  match req with
  | None => None
  | Some p =>
      match requests w !! p with
      | None => None
      | Some r =>
          let '(syms, sp) := reuseSymbolsSlice (SymbolsRW2 r) (symbolsPools w) in
          let '(ts, tsPool, refsPool) :=
            reuseTimeSeriesRW2Slice (TimeseriesRW2 r)
              (preallocTimeseriesRW2SlicePool w) (preallocLabelsRefsSlicePool w) in
          Some {| requests :=
                    <[p := {| Timeseries := Timeseries r; Source := Source r;
                              Metadata := Metadata r; SymbolsRW2 := syms;
                              TimeseriesRW2 := ts;
                              SkipLabelValidation := SkipLabelValidation r;
                              SkipLabelCountValidation := SkipLabelCountValidation r;
                              skipUnmarshalingExemplars := skipUnmarshalingExemplars r |}]>
                      (requests w);
                  preallocTimeseriesRW2SlicePool := tsPool;
                  preallocLabelsRefsSlicePool := refsPool;
                  symbolsPools := sp |}
      end
  end.

(** ** Conversion *)

Definition stringsPerLabel : nat := 2.

(** The loop shared by series and exemplars:
    [for i := range labels { refs = append(refs, Symbolize(Name), Symbolize(Value)) }],
    the two calls evaluated left to right. *)
Fixpoint symbolizeLabels {T} `{!StringSymbolizer T}
    (labels : list LabelAdapter) (refs : slice ref) (symbols : T) : slice ref * T :=
  match labels with
  | [] => (refs, symbols)
  | l :: labels' =>
      let '(n, symbols) := Symbolize (Name l) symbols in
      let '(v, symbols) := Symbolize (Value l) symbols in
      symbolizeLabels labels' (append refs [n; v]) symbols
  end.

(** The loop of [FromExemplarsToExemplarsRW2]. *)
Fixpoint convertExemplars {T} `{!StringSymbolizer T}
    (exemplars : list Exemplar) (result : slice ExemplarRW2) (symbols : T)
    : slice ExemplarRW2 * T :=
  match exemplars with
  | [] => (result, symbols)
  | ex :: exemplars' =>
      let refs := make (len (ex_Labels ex) * 2) in
      let '(refs, symbols) := symbolizeLabels (elems (ex_Labels ex)) refs symbols in
      let exv2 := {| ex2_LabelsRefs := refs; ex2_Value := ex_Value ex;
                     ex2_Timestamp := ex_TimestampMs ex |} in
      convertExemplars exemplars' (append result [exv2]) symbols
  end.

Definition FromExemplarsToExemplarsRW2 {T} `{!StringSymbolizer T}
    (exemplars : slice Exemplar) (symbols : T) : slice ExemplarRW2 * T :=
  match exemplars with
  | slice_nil => (slice_nil, symbols)
  | slice_mk l _ => convertExemplars l (make (length l)) symbols
  end.

Definition FromMetricMetadataToMetadataRW2 {T} `{!StringSymbolizer T}
    (metadata : option MetricMetadata) (symbols : T) : MetadataRW2 * T :=
  match metadata with
  | None => (MetadataRW2_zero, symbols)
  | Some m =>
      let '(helpRef, symbols) := Symbolize (mm_Help m) symbols in
      let '(unitRef, symbols) := Symbolize (mm_Unit m) symbols in
      ({| md2_Type := mm_Type m; md2_HelpRef := helpRef; md2_UnitRef := unitRef |}, symbols)
  end.

(** The reference buffer a series starts appending into: the pooled one,
    replaced when its capacity is below [stringsPerLabel]. *)
Definition acquireLabelsRefs (ts : TimeSeries) (refsPool : list (slice ref))
    : slice ref * list (slice ref) :=
  let expLabelsCount := len (ts_Labels ts) * stringsPerLabel in
  let '(refs, refsPool) := labelsRefsSliceFromPool refsPool in
  if decide (cap refs < stringsPerLabel)
  then (make expLabelsCount, refsPool)
  else (refs, refsPool).

(** The loop over [rw1.Timeseries]; [None] is the nil dereference at
    [ts.Labels], which comes before the series takes a buffer from the
    pool. *)
Fixpoint convertTimeseries (tss : list (option TimeSeries))
    (rw2Timeseries : slice TimeSeriesRW2)
    (symbols : Symbols.Table) (refsPool : list (slice ref))
    : option (slice TimeSeriesRW2) * Symbols.Table * list (slice ref) :=
  match tss with
  | [] => (Some rw2Timeseries, symbols, refsPool)
  | None :: _ => (None, symbols, refsPool)
  | Some ts :: tss' =>
      let '(refs, refsPool) := acquireLabelsRefs ts refsPool in
      let '(refs, symbols) := symbolizeLabels (elems (ts_Labels ts)) refs symbols in
      let '(exemplars, symbols) := FromExemplarsToExemplarsRW2 (ts_Exemplars ts) symbols in
      convertTimeseries tss'
        (append rw2Timeseries
           [{| ts2_LabelsRefs := refs; ts2_Samples := ts_Samples ts;
               ts2_Histograms := ts_Histograms ts; ts2_Exemplars := exemplars;
               ts2_Metadata := MetadataRW2_zero;
               ts2_CreatedTimestamp := ts_CreatedTimestamp ts |}])
        symbols refsPool
  end.

(** The loop over [rw1.Metadata]; [None] is the nil dereference at
    [meta.MetricFamilyName], and the table is the one the deferred release
    then sees (the call that symbolizes the name key is taken to come before
    the dereference). *)
Fixpoint convertMetadata (metas : list (option MetricMetadata))
    (rw2Timeseries : slice TimeSeriesRW2) (symbols : Symbols.Table)
    : option (slice TimeSeriesRW2) * Symbols.Table :=
  match metas with
  | [] => (Some rw2Timeseries, symbols)
  | None :: _ =>
      let '(_, symbols) := Symbolize "__name__"%string symbols in
      (None, symbols)
  | Some m :: metas' =>
      let '(nameKey, symbols) := Symbolize "__name__"%string symbols in
      let '(name, symbols) := Symbolize (mm_MetricFamilyName m) symbols in
      let labelsRefs := slice_mk [nameKey; name] 0 in
      let '(rw2meta, symbols) := FromMetricMetadataToMetadataRW2 (Some m) symbols in
      convertMetadata metas'
        (append rw2Timeseries
           [{| ts2_LabelsRefs := labelsRefs; ts2_Samples := slice_nil;
               ts2_Histograms := slice_nil; ts2_Exemplars := slice_nil;
               ts2_Metadata := rw2meta; ts2_CreatedTimestamp := 0%Z |}])
        symbols
  end.

(** What a call returns: [(rw2, nil)], [(nil, err)], or a run-time panic. *)
Inductive result :=
  | Ok (rw2 : option ptr)
  | Err (msg : string)
  | Panic.

Definition FromWriteRequestToRW2Request (rw1 : option ptr)
    (commonSymbols : option Symbols.CommonSymbols) (offset : nat) (w : World)
    : result * World :=
  match rw1 with
  | None => (Ok None, w)
  | Some p =>
      match requests w !! p with
      | None => (Panic, w)
      | Some r1 =>
          if decide (0 < len (SymbolsRW2 r1) ∨ 0 < len (TimeseriesRW2 r1))
          then (Err "the provided request is already rw2"%string, w)
          else
            let '(symbols, sp) := symbolsTableFromPool (symbolsPools w) in
            let symbols := Symbols.ConfigureCommonSymbols offset commonSymbols symbols in
            let expTimeseriesCount := len (Timeseries r1) + len (Metadata r1) in
            let '(rw2Timeseries, tsPool) :=
              timeSeriesRW2SliceFromPool (preallocTimeseriesRW2SlicePool w) in
            let rw2Timeseries :=
              if decide (cap rw2Timeseries < expTimeseriesCount)
              then make expTimeseriesCount else rw2Timeseries in
            match convertTimeseries (elems (Timeseries r1)) rw2Timeseries symbols
                    (preallocLabelsRefsSlicePool w) with
            | (None, symbols, refsPool) =>
                (Panic,
                 {| requests := requests w;
                    preallocTimeseriesRW2SlicePool := tsPool;
                    preallocLabelsRefsSlicePool := refsPool;
                    symbolsPools := reuseSymbolsTable symbols sp |})
            | (Some rw2Timeseries, symbols, refsPool) =>
                match convertMetadata (elems (Metadata r1)) rw2Timeseries symbols with
                | (None, symbols) =>
                    (Panic,
                     {| requests := requests w;
                        preallocTimeseriesRW2SlicePool := tsPool;
                        preallocLabelsRefsSlicePool := refsPool;
                        symbolsPools := reuseSymbolsTable symbols sp |})
                | (Some rw2Timeseries, symbols) =>
                    let '(syms, sp) := symbolsSliceFromPool sp in
                    let rw2 :=
                      {| Timeseries := slice_nil; Source := Source r1;
                         Metadata := slice_nil;
                         SymbolsRW2 := Symbols.SymbolsPrealloc symbols syms;
                         TimeseriesRW2 := rw2Timeseries;
                         SkipLabelValidation := SkipLabelValidation r1;
                         SkipLabelCountValidation := SkipLabelCountValidation r1;
                         skipUnmarshalingExemplars := skipUnmarshalingExemplars r1 |} in
                    (Ok (Some (length (requests w))),
                     {| requests := requests w ++ [rw2];
                        preallocTimeseriesRW2SlicePool := tsPool;
                        preallocLabelsRefsSlicePool := refsPool;
                        symbolsPools := reuseSymbolsTable symbols sp |})
                end
            end
      end
  end.

End mimirpb.

(** * Vocabulary of the statements *)

(** The strings of a label list, name before value, in order. *)
Definition label_strings (labels : list LabelAdapter) : list string :=
  flat_map (λ l, [Name l; Value l]) labels.

(** Reading a reference sequence back as consecutive (name, value) pairs
    through a symbol list; [None] when a reference is out of range or the
    sequence has odd length. *)
Fixpoint deref_pairs (syms : list string) (refs : list ref) : option (list LabelAdapter) :=
  match refs with
  | [] => Some []
  | [_] => None
  | n :: v :: refs' =>
      match syms !! n, syms !! v, deref_pairs syms refs' with
      | Some name, Some value, Some labels =>
          Some ({| Name := name; Value := value |} :: labels)
      | _, _, _ => None
      end
  end.

(** [t'] has the offset and dictionary of [t] and has registered at least the
    strings of [t], the shared ones in the same order. *)
Definition extends (t t' : Symbols.Table) : Prop :=
  Symbols.offset t = Symbols.offset t' ∧
  Symbols.common t = Symbols.common t' ∧
  Symbols.symbols t `prefix_of` Symbols.symbols t'.

(** A pool holds emptied slices only: every [Put] in the package stores
    [s[:0]]. *)
Definition pool_ok {A} (pool : list (slice A)) : Prop :=
  Forall (λ s, elems s = []) pool.

(** [R] holds of what the pointer [o] points to; it fails of nil. *)
Definition pointed {A B} (R : A → B → Prop) (o : option A) (b : B) : Prop :=
  ∃ a, o = Some a ∧ R a b.

(** The number of pointers before the first nil one. *)
Fixpoint leading_non_nil {A} (l : list (option A)) : nat :=
  match l with
  | Some _ :: l' => S (leading_non_nil l')
  | _ => 0
  end.

(** A pool holds emptied slices of non-zero capacity at most [max]. *)
Definition pool_bounded {A} (max : nat) (pool : list (slice A)) : Prop :=
  Forall (λ s, elems s = [] ∧ 0 < cap s ≤ max) pool.

(** The reference buffers that [reuseLabelsRefsSlice] retains. *)
Definition retained_refs (s : slice ref) : Prop := 0 < cap s ≤ 200.

#[export] Instance retained_refs_dec s : Decision (retained_refs s).
Proof. unfold retained_refs. apply _. Defined.

Section mimirpb_vocabulary.
Context `{env : Env}.

Definition pools_bounded (w : World) : Prop :=
  pool_bounded maxPreallocatedTimeseriesRW2 (preallocTimeseriesRW2SlicePool w) ∧
  pool_bounded maxPreallocatedLabelsRefs (preallocLabelsRefsSlicePool w).

Definition pools_ok (w : World) : Prop :=
  pool_ok (preallocTimeseriesRW2SlicePool w) ∧ pool_ok (preallocLabelsRefsSlicePool w).

(** [p] points to the request [rw1], which carries no RW2 content, no nil
    series and no nil metadata entry, in a world whose pools hold emptied
    slices. *)
Definition convertible (w : World) (p : ptr) (rw1 : WriteRequest) : Prop :=
  requests w !! p = Some rw1 ∧
  len (SymbolsRW2 rw1) = 0 ∧ len (TimeseriesRW2 rw1) = 0 ∧
  Forall is_Some (elems (Timeseries rw1)) ∧
  Forall is_Some (elems (Metadata rw1)) ∧
  pools_ok w.

(** The references of [refs] are, position by position, those the table [t]
    holds for the strings of [labels]. *)
Definition refs_of (t : Symbols.Table) (labels : list LabelAdapter) (refs : list ref) : Prop :=
  Forall2 (λ s r, Symbols.lookup_ref t s = Some r) (label_strings labels) refs.

Definition exemplar_of (t : Symbols.Table) (ex : Exemplar) (ex2 : ExemplarRW2) : Prop :=
  refs_of t (elems (ex_Labels ex)) (elems (ex2_LabelsRefs ex2)) ∧
  ex2_Value ex2 = ex_Value ex ∧
  ex2_Timestamp ex2 = ex_TimestampMs ex.

(** What every converted exemplar looks like, whatever the symbolizer: a
    reference list made for it, of length and capacity twice its label count,
    and the value and timestamp of the original. *)
Definition exemplar_shape (ex : Exemplar) (ex2 : ExemplarRW2) : Prop :=
  ex2_LabelsRefs ex2 ≠ slice_nil ∧
  len (ex2_LabelsRefs ex2) = 2 * len (ex_Labels ex) ∧
  cap (ex2_LabelsRefs ex2) = 2 * len (ex_Labels ex) ∧
  ex2_Value ex2 = ex_Value ex ∧
  ex2_Timestamp ex2 = ex_TimestampMs ex.

(** [ts2] is the conversion of the real series [ts] under the table [t]. *)
Definition series_of (t : Symbols.Table) (ts : TimeSeries) (ts2 : TimeSeriesRW2) : Prop :=
  refs_of t (elems (ts_Labels ts)) (elems (ts2_LabelsRefs ts2)) ∧
  ts2_Samples ts2 = ts_Samples ts ∧
  ts2_Histograms ts2 = ts_Histograms ts ∧
  (ts2_Exemplars ts2 = slice_nil ↔ ts_Exemplars ts = slice_nil) ∧
  Forall2 (exemplar_of t) (elems (ts_Exemplars ts)) (elems (ts2_Exemplars ts2)) ∧
  ts2_Metadata ts2 = MetadataRW2_zero ∧
  ts2_CreatedTimestamp ts2 = ts_CreatedTimestamp ts.

(** [ts2] is the synthetic series of the metadata entry [meta] under [t]. *)
Definition synthetic_of (t : Symbols.Table) (meta : option MetricMetadata)
    (ts2 : TimeSeriesRW2) : Prop :=
  ∃ m nameKey name,
    meta = Some m ∧
    ts2_LabelsRefs ts2 = slice_mk [nameKey; name] 0 ∧
    Symbols.lookup_ref t "__name__"%string = Some nameKey ∧
    Symbols.lookup_ref t (mm_MetricFamilyName m) = Some name ∧
    md2_Type (ts2_Metadata ts2) = mm_Type m ∧
    Symbols.lookup_ref t (mm_Help m) = Some (md2_HelpRef (ts2_Metadata ts2)) ∧
    Symbols.lookup_ref t (mm_Unit m) = Some (md2_UnitRef (ts2_Metadata ts2)) ∧
    ts2_Samples ts2 = slice_nil ∧
    ts2_Histograms ts2 = slice_nil ∧
    ts2_Exemplars ts2 = slice_nil ∧
    ts2_CreatedTimestamp ts2 = 0%Z.

(** [ts2] is a synthetic series for the metadata entry [m], read through
    the symbol list [syms]: one label pair, the reserved name key with the
    metric family name; the type, help and unit of [m]; nothing else. *)
Definition synthetic_series (syms : list string) (m : MetricMetadata) (ts2 : TimeSeriesRW2) : Prop :=
  len (ts2_LabelsRefs ts2) = 2 ∧
  deref_pairs syms (elems (ts2_LabelsRefs ts2))
    = Some [{| Name := "__name__"%string; Value := mm_MetricFamilyName m |}] ∧
  md2_Type (ts2_Metadata ts2) = mm_Type m ∧
  syms !! md2_HelpRef (ts2_Metadata ts2) = Some (mm_Help m) ∧
  syms !! md2_UnitRef (ts2_Metadata ts2) = Some (mm_Unit m) ∧
  ts2_Samples ts2 = slice_nil ∧
  ts2_Histograms ts2 = slice_nil ∧
  ts2_Exemplars ts2 = slice_nil ∧
  ts2_CreatedTimestamp ts2 = 0%Z.




(** Two converted series with the same content: the same references and the
    same other fields; the capacity of the reference buffer may differ. *)
Definition same_series (a b : TimeSeriesRW2) : Prop :=
  elems (ts2_LabelsRefs a) = elems (ts2_LabelsRefs b) ∧
  ts2_Samples a = ts2_Samples b ∧
  ts2_Histograms a = ts2_Histograms b ∧
  ts2_Exemplars a = ts2_Exemplars b ∧
  ts2_Metadata a = ts2_Metadata b ∧
  ts2_CreatedTimestamp a = ts2_CreatedTimestamp b.

End mimirpb_vocabulary.

(** * A worked instance *)

(** An environment to run the definitions in: integer payloads, a runtime
    that grows a slice to twice the needed length, one shared symbols table
    pool that always makes a fresh table, and a symbol slice pool that makes
    slices of capacity 100 and keeps nothing. *)
Definition example_env : Env :=
  {| Sample := Z; Histogram := Z; float64 := Z;
     growslice := λ _ n, n;
     SymbolsPools := unit;
     symbolsTableFromPool := λ sp, (Symbols.mkTable 0 [] [], sp);
     reuseSymbolsTable := λ _ sp, sp;
     symbolsSliceFromPool := λ sp, (make 100, sp);
     reuseSymbolsSlice := λ s sp, (clear ""%string s, sp) |}.

Section example.
#[local] Existing Instance example_env.

(** One series [{(__name__, foo), (job, a)}] with a sample and an exemplar,
    and one metadata entry for the family [foo]. *)
Definition example_series : @TimeSeries example_env :=
  {| ts_Labels := slice_mk [{| Name := "__name__"; Value := "foo" |};
                            {| Name := "job"; Value := "a" |}] 0;
     ts_Samples := slice_mk [42%Z] 0;
     ts_Histograms := slice_nil;
     ts_Exemplars :=
       slice_mk [{| ex_Labels := slice_mk [{| Name := "trace_id"; Value := "a" |}] 0;
                    ex_Value := 1%Z; ex_TimestampMs := 1000%Z |}] 0;
     ts_CreatedTimestamp := 5%Z |}.

Definition example_metadata : MetricMetadata :=
  {| mm_Type := 1%Z; mm_MetricFamilyName := "foo"; mm_Help := "help"; mm_Unit := "" |}.

Definition example_request : @WriteRequest example_env :=
  {| Timeseries := slice_mk [Some example_series] 0;
     Source := 1%Z;
     Metadata := slice_mk [Some example_metadata] 0;
     SymbolsRW2 := slice_nil;
     TimeseriesRW2 := slice_nil;
     SkipLabelValidation := true;
     SkipLabelCountValidation := false;
     skipUnmarshalingExemplars := false |}.

(** A world holding that request, with one emptied buffer in each pool. *)
Definition example_world : @World example_env :=
  {| requests := [example_request];
     preallocTimeseriesRW2SlicePool := [slice_mk [] 1];
     preallocLabelsRefsSlicePool := [slice_mk [] 3];
     symbolsPools := () |}.

(** A series with eleven label pairs. *)
Definition eleven_labels_series : @TimeSeries example_env :=
  {| ts_Labels := slice_mk (replicate 11 {| Name := "k"; Value := "v" |}) 0;
     ts_Samples := slice_nil; ts_Histograms := slice_nil; ts_Exemplars := slice_nil;
     ts_CreatedTimestamp := 0%Z |}.

(** A converted series holding a reference buffer of capacity 20, and a
    series buffer of capacity 10001 holding it. *)
Definition pooled_size_series : @TimeSeriesRW2 example_env :=
  {| ts2_LabelsRefs := slice_mk [1; 2] 18; ts2_Samples := slice_nil;
     ts2_Histograms := slice_nil; ts2_Exemplars := slice_nil;
     ts2_Metadata := MetadataRW2_zero; ts2_CreatedTimestamp := 0%Z |}.

Definition oversized_series_buffer : slice (@TimeSeriesRW2 example_env) :=
  slice_mk [pooled_size_series] 10000.

(** A request in RW2 form, holding that series, in a world with empty
    pools. *)
Definition converted_request : @WriteRequest example_env :=
  {| Timeseries := slice_nil;
     Source := 1%Z;
     Metadata := slice_nil;
     SymbolsRW2 := slice_mk [""; "__name__"; "foo"] 0;
     TimeseriesRW2 := slice_mk [pooled_size_series] 1;
     SkipLabelValidation := false;
     SkipLabelCountValidation := false;
     skipUnmarshalingExemplars := false |}.

Definition converted_world : @World example_env :=
  {| requests := [converted_request];
     preallocTimeseriesRW2SlicePool := [];
     preallocLabelsRefsSlicePool := [];
     symbolsPools := () |}.

(** A request whose one series is a nil pointer, and one whose one series
    has no label, each alone in a world with empty pools. *)
Definition nil_series_request : @WriteRequest example_env :=
  {| Timeseries := slice_mk [None] 0;
     Source := 0%Z;
     Metadata := slice_nil;
     SymbolsRW2 := slice_nil;
     TimeseriesRW2 := slice_nil;
     SkipLabelValidation := false;
     SkipLabelCountValidation := false;
     skipUnmarshalingExemplars := false |}.

Definition nil_series_world : @World example_env :=
  {| requests := [nil_series_request];
     preallocTimeseriesRW2SlicePool := [];
     preallocLabelsRefsSlicePool := [];
     symbolsPools := () |}.




(** The world of [example_world] with nothing in the pools. *)
Definition empty_pools_world : @World example_env :=
  {| requests := [example_request];
     preallocTimeseriesRW2SlicePool := [];
     preallocLabelsRefsSlicePool := [];
     symbolsPools := () |}.

End example.

(** * The symbols table *)

Lemma index_of_lookup s l i : index_of s l = Some i → l !! i = Some s.
Proof.
  revert i. induction l as [|x l IH]; intros i; simpl; [done|].
  case_decide as Hx.
  - intros [= <-]. by subst.
  - destruct (index_of s l) as [j|] eqn:Hj; simpl; [|done].
    intros [= <-]. simpl. by apply IH.
Qed.

Lemma index_of_app_l s l k i : index_of s l = Some i → index_of s (l ++ k) = Some i.
Proof.
  revert i. induction l as [|x l IH]; intros i; simpl; [done|].
  case_decide; [done|].
  destruct (index_of s l) as [j|] eqn:Hj; simpl; [|done].
  intros [= <-]. by rewrite (IH j).
Qed.

Lemma index_of_snoc s l : index_of s l = None → index_of s (l ++ [s]) = Some (length l).
Proof.
  induction l as [|x l IH]; simpl.
  - intros _. by rewrite decide_True.
  - case_decide; [done|].
    destruct (index_of s l) eqn:Hj; simpl; [done|].
    intros _. by rewrite IH.
Qed.

Lemma index_of_prefix s l l' i : l `prefix_of` l' → index_of s l = Some i → index_of s l' = Some i.
Proof. intros [k ->]. apply index_of_app_l. Qed.

Lemma index_of_None s l : index_of s l = None ↔ s ∉ l.
Proof.
  induction l as [|x l IH]; simpl.
  - split; [intros _; apply not_elem_of_nil | done].
  - case_decide as Hx.
    + subst. split; [done|]. intros []. left.
    + rewrite not_elem_of_cons. destruct (index_of s l); simpl.
      * split; [done|]. intros [_ Hl]. by apply IH in Hl.
      * split; [|done]. intros _. split; [congruence|]. by apply IH.
Qed.

Lemma extends_refl t : extends t t.
Proof. by repeat split. Qed.

Lemma extends_trans t1 t2 t3 : extends t1 t2 → extends t2 t3 → extends t1 t3.
Proof.
  intros (?&?&?) (?&?&?). repeat split; [congruence..|]. by etrans.
Qed.

Lemma lookup_ref_extends t t' s r :
  extends t t' → Symbols.lookup_ref t s = Some r → Symbols.lookup_ref t' s = Some r.
Proof.
  intros (Ho & Hc & Hp). unfold Symbols.lookup_ref. rewrite <- Ho, <- Hc.
  destruct (index_of s (Symbols.common t)); [done|].
  destruct (index_of s (Symbols.symbols t)) as [j|] eqn:Hj; [|done].
  by rewrite (index_of_prefix _ _ _ _ Hp Hj).
Qed.

Lemma lookup_ref_SymbolList t s r :
  Symbols.lookup_ref t s = Some r → Symbols.SymbolList t !! r = Some s.
Proof.
  unfold Symbols.lookup_ref, Symbols.SymbolList.
  destruct (index_of s (Symbols.common t)) as [i|] eqn:Hi.
  - intros [= <-]. apply index_of_lookup in Hi.
    rewrite lookup_app_r; rewrite length_replicate; [|lia].
    replace (Symbols.offset t + i - Symbols.offset t) with i by lia.
    by apply lookup_app_l_Some.
  - destruct (index_of s (Symbols.symbols t)) as [j|] eqn:Hj; [|done].
    intros [= <-]. apply index_of_lookup in Hj.
    rewrite lookup_app_r; rewrite length_replicate; [|lia].
    rewrite lookup_app_r; [|lia].
    by replace (Symbols.offset t + length (Symbols.common t) + j - Symbols.offset t
                - length (Symbols.common t)) with j by lia.
Qed.

Lemma Symbolize_spec s t r t' :
  Symbols.Symbolize s t = (r, t') → extends t t' ∧ Symbols.lookup_ref t' s = Some r.
Proof.
  unfold Symbols.Symbolize.
  destruct (Symbols.lookup_ref t s) as [r0|] eqn:Hr.
  - intros [= <- <-]. split; [apply extends_refl | done].
  - intros [= <- <-]. split.
    + repeat split; simpl. by apply prefix_app_r.
    + revert Hr. unfold Symbols.lookup_ref; simpl.
      destruct (index_of s (Symbols.common t)); [done|].
      destruct (index_of s (Symbols.symbols t)) eqn:Hj; [done|].
      intros _. by rewrite (index_of_snoc _ _ Hj).
Qed.

(** * Slices *)

Section mimirpb_lemmas.
Context `{env : Env}.

Lemma elems_append {A} (s : slice A) xs : elems (append s xs) = elems s ++ xs.
Proof.
  unfold append. destruct s as [|l sp], xs as [|x xs]; simpl; try done;
    by case_decide.
Qed.

Lemma len_append {A} (s : slice A) xs : len (append s xs) = len s + length xs.
Proof. unfold len. by rewrite elems_append, length_app. Qed.

Lemma append_nil_inv {A} (s : slice A) xs : append s xs = slice_nil → s = slice_nil ∧ xs = [].
Proof.
  unfold append. destruct s as [|l sp], xs as [|x xs]; simpl; try done;
    by case_decide.
Qed.

Lemma cap_append_fits {A} (s : slice A) xs :
  s ≠ slice_nil → len s + length xs ≤ cap s → cap (append s xs) = cap s.
Proof.
  intros Hs Hfit. unfold append.
  destruct s as [|l sp]; [done|].
  assert (cap (slice_mk (elems (slice_mk l sp) ++ xs)
                 (cap (slice_mk l sp) - (len (slice_mk l sp) + length xs)))
          = cap (slice_mk l sp)) as Hcap.
  { unfold len in *. simpl in *. rewrite length_app. lia. }
  destruct xs; by rewrite decide_True.
Qed.

Lemma pool_ok_cons {A} (s : slice A) pool : elems s = [] → pool_ok pool → pool_ok (s :: pool).
Proof. intros. by constructor. Qed.

Lemma elems_reslice0 {A} (s : slice A) : elems (reslice0 s) = [].
Proof. by destruct s. Qed.

Lemma cap_reslice0 {A} (s : slice A) : cap (reslice0 s) = cap s.
Proof. by destruct s. Qed.

Lemma cap_clear {A} (z : A) s : cap (clear z s) = cap s.
Proof. destruct s; simpl; [done|]. by rewrite length_replicate. Qed.

Lemma len_clear {A} (z : A) s : len (clear z s) = len s.
Proof. destruct s; unfold len; simpl; [done|]. by rewrite length_replicate. Qed.

Lemma elems_clear {A} (z : A) s : elems (clear z s) = replicate (len s) z.
Proof. by destruct s. Qed.

(** * The label loop, for any symbolizer *)

Lemma symbolizeLabels_shape {T} `{!StringSymbolizer T} labels refs (symbols : T) :
  let refs' := (symbolizeLabels labels refs symbols).1 in
  len refs' = len refs + 2 * length labels ∧
  (refs ≠ slice_nil → refs' ≠ slice_nil) ∧
  (refs ≠ slice_nil → len refs + 2 * length labels ≤ cap refs → cap refs' = cap refs).
Proof.
  revert refs symbols. induction labels as [|l labels IH]; intros refs symbols; simpl.
  - repeat split; [lia | done..].
  - destruct (Symbolize (Name l) symbols) as [n s1].
    destruct (Symbolize (Value l) s1) as [v s2].
    destruct (IH (append refs [n; v]) s2) as (Hlen & Hnil & Hcap).
    rewrite len_append in Hlen, Hcap. simpl in Hlen, Hcap.
    assert (append refs [n; v] ≠ slice_nil) as Hne.
    { intros Heq. by apply append_nil_inv in Heq as [_ ?]. }
    repeat split.
    + lia.
    + intros _. by apply Hnil.
    + intros Hr Hfit. rewrite Hcap; [|done|].
      * apply cap_append_fits; [done|]. simpl. lia.
      * rewrite cap_append_fits; [lia|done|]. simpl. lia.
Qed.

(** * The conversion loops on the symbols table *)

Lemma refs_of_extends t t' labels refs :
  extends t t' → refs_of t labels refs → refs_of t' labels refs.
Proof.
  intros Hext H. unfold refs_of in *. eapply Forall2_impl; [done|].
  intros s r. by apply lookup_ref_extends.
Qed.

Lemma exemplar_of_extends t t' ex ex2 :
  extends t t' → exemplar_of t ex ex2 → exemplar_of t' ex ex2.
Proof. intros Hext (?&?&?). repeat split; [|done..]. by eapply refs_of_extends. Qed.

Lemma series_of_extends t t' ts ts2 :
  extends t t' → series_of t ts ts2 → series_of t' ts ts2.
Proof.
  intros Hext (?&?&?&?&Hex&?&?). repeat split; try done; try tauto.
  - by eapply refs_of_extends.
  - eapply Forall2_impl; [done|]. intros ??. by apply exemplar_of_extends.
Qed.

Lemma synthetic_of_extends t t' meta ts2 :
  extends t t' → synthetic_of t meta ts2 → synthetic_of t' meta ts2.
Proof.
  intros Hext (m & nk & n & ? & ? & ? & ? & ? & ? & ? & ? & ? & ? & ?).
  exists m, nk, n. repeat split; try done; by eapply lookup_ref_extends.
Qed.

Lemma symbolizeLabels_refs labels refs t refs' t' :
  symbolizeLabels labels refs t = (refs', t') →
  extends t t' ∧ ∃ new, elems refs' = elems refs ++ new ∧ refs_of t' labels new.
Proof.
  revert refs t. induction labels as [|l labels IH]; intros refs t; simpl.
  - intros [= <- <-]. split; [apply extends_refl|].
    exists []. split; [by rewrite app_nil_r | constructor].
  - change (Symbolize (Name l) t) with (Symbols.Symbolize (Name l) t).
    destruct (Symbols.Symbolize (Name l) t) as [n t1] eqn:Hn.
    change (Symbolize (Value l) t1) with (Symbols.Symbolize (Value l) t1).
    destruct (Symbols.Symbolize (Value l) t1) as [v t2] eqn:Hv.
    intros Hrest. apply IH in Hrest as (Hext & new & Hel & Hnew).
    apply Symbolize_spec in Hn as [Hext1 Hn], Hv as [Hext2 Hv].
    split; [eauto using extends_trans|].
    exists (n :: v :: new). split.
    + rewrite Hel, elems_append. by rewrite <- app_assoc.
    + unfold refs_of. simpl. constructor; [|constructor; [|done]].
      * apply (lookup_ref_extends t1); [eauto using extends_trans | done].
      * by apply (lookup_ref_extends t2).
Qed.

Lemma refs_of_length t labels refs : refs_of t labels refs → length refs = 2 * length labels.
Proof.
  intros H. apply Forall2_length in H. rewrite <- H. clear H. unfold label_strings.
  induction labels as [|l labels IH]; simpl in *; lia.
Qed.

Lemma refs_of_deref t labels refs :
  refs_of t labels refs → deref_pairs (Symbols.SymbolList t) refs = Some labels.
Proof.
  revert refs. induction labels as [|[n v] labels IH]; intros refs H.
  - by inversion H.
  - unfold refs_of in H. simpl in H.
    inversion H as [|?? ? refs1 Hn H1]; subst.
    inversion H1 as [|?? ? refs2 Hv H2]; subst.
    simpl. rewrite (lookup_ref_SymbolList _ _ _ Hn), (lookup_ref_SymbolList _ _ _ Hv).
    by rewrite (IH _ H2).
Qed.

Lemma convertExemplars_shape {T} `{!StringSymbolizer T} exs result (symbols : T) :
  let res' := (convertExemplars exs result symbols).1 in
  (result ≠ slice_nil → res' ≠ slice_nil) ∧
  (result ≠ slice_nil → len result + length exs ≤ cap result → cap res' = cap result) ∧
  ∃ new, elems res' = elems result ++ new ∧ Forall2 exemplar_shape exs new.
Proof.
  revert result symbols. induction exs as [|ex exs IH]; intros result symbols; simpl.
  - repeat split; [done..|]. exists []. split; [by rewrite app_nil_r | constructor].
  - pose proof (symbolizeLabels_shape (elems (ex_Labels ex)) (make (len (ex_Labels ex) * 2))
                  symbols) as Hshape.
    destruct (symbolizeLabels (elems (ex_Labels ex)) (make (len (ex_Labels ex) * 2)) symbols)
      as [refs s1].
    simpl in Hshape. destruct Hshape as (Hlen & Hnil & Hcap).
    set (exv2 := {| ex2_LabelsRefs := refs; ex2_Value := ex_Value ex;
                    ex2_Timestamp := ex_TimestampMs ex |}).
    destruct (IH (append result [exv2]) s1) as (Hn & Hc & new & Hel & Hnew).
    assert (append result [exv2] ≠ slice_nil) as Hne.
    { intros Heq. by apply append_nil_inv in Heq as [_ ?]. }
    repeat split.
    + intros _. by apply Hn.
    + intros Hr Hfit. rewrite Hc; [|done|].
      * apply cap_append_fits; [done|]. simpl. lia.
      * rewrite len_append, cap_append_fits; simpl; [lia|done|lia].
    + exists (exv2 :: new). split.
      * rewrite Hel, elems_append. by rewrite <- app_assoc.
      * constructor; [|done]. unfold exemplar_shape, len in *; simpl in *.
        repeat split; [by apply Hnil | lia | | done..].
        rewrite Hcap; [lia|done|lia].
Qed.

Lemma convertExemplars_refs exs result t res' t' :
  convertExemplars exs result t = (res', t') →
  extends t t' ∧ ∃ new, elems res' = elems result ++ new ∧ Forall2 (exemplar_of t') exs new.
Proof.
  revert result t. induction exs as [|ex exs IH]; intros result t; simpl.
  - intros [= <- <-]. split; [apply extends_refl|].
    exists []. split; [by rewrite app_nil_r | constructor].
  - destruct (symbolizeLabels (elems (ex_Labels ex)) (make (len (ex_Labels ex) * 2)) t)
      as [refs t1] eqn:Hlbl.
    apply symbolizeLabels_refs in Hlbl as (Hext1 & rs & Hrs & Hof). simpl in Hrs.
    intros Hrest. apply IH in Hrest as (Hext & new & Hel & Hnew).
    split; [eauto using extends_trans|].
    eexists (_ :: new). split.
    + rewrite Hel, elems_append. by rewrite <- app_assoc.
    + constructor; [|done]. repeat split; simpl.
      rewrite Hrs. by apply (refs_of_extends t1).
Qed.

Lemma FromExemplarsToExemplarsRW2_refs exs t exs2 t' :
  FromExemplarsToExemplarsRW2 exs t = (exs2, t') →
  extends t t' ∧ (exs2 = slice_nil ↔ exs = slice_nil) ∧
  Forall2 (exemplar_of t') (elems exs) (elems exs2).
Proof.
  destruct exs as [|l sp]; simpl.
  - intros [= <- <-]. split; [apply extends_refl|]. split; [done | constructor].
  - intros Hc.
    pose proof (convertExemplars_shape l (make (length l)) t) as (Hn & _).
    rewrite Hc in Hn. simpl in Hn.
    apply convertExemplars_refs in Hc as (Hext & new & Hel & Hnew). simpl in Hel.
    split; [done|]. split; [|by rewrite Hel].
    split; [|done]. intros ->. by destruct Hn.
Qed.

Lemma acquireLabelsRefs_empty ts pool refs pool' :
  pool_ok pool → acquireLabelsRefs ts pool = (refs, pool') → elems refs = [] ∧ pool_ok pool'.
Proof.
  intros Hok. unfold acquireLabelsRefs, labelsRefsSliceFromPool.
  destruct pool as [|s pool].
  - case_decide; intros [= <- <-]; by split.
  - inversion Hok; subst. case_decide; intros [= <- <-]; by split.
Qed.

Lemma convertTimeseries_spec tss out t pool :
  Forall is_Some tss →
  pool_ok pool →
  ∃ out' t' pool',
    convertTimeseries tss out t pool = (Some out', t', pool') ∧
    extends t t' ∧ pool_ok pool' ∧
    ∃ new, elems out' = elems out ++ new ∧ Forall2 (pointed (series_of t')) tss new.
Proof.
  revert out t pool. induction tss as [|ots tss IH]; intros out t pool Hall Hok; simpl.
  - exists out, t, pool. split; [done|]. split; [apply extends_refl|]. split; [done|].
    exists []. split; [by rewrite app_nil_r | constructor].
  - inversion Hall as [|?? [ts ->] Hrest]; subst.
    destruct (acquireLabelsRefs ts pool) as [refs0 pool1] eqn:Hacq.
    destruct (symbolizeLabels (elems (ts_Labels ts)) refs0 t) as [refs t1] eqn:Hlbl.
    destruct (FromExemplarsToExemplarsRW2 (ts_Exemplars ts) t1) as [exs2 t2] eqn:Hex.
    apply (acquireLabelsRefs_empty _ _ _ _ Hok) in Hacq as [Hempty Hok1].
    apply symbolizeLabels_refs in Hlbl as (Hext1 & rs & Hrs & Hof).
    rewrite Hempty in Hrs. simpl in Hrs.
    apply FromExemplarsToExemplarsRW2_refs in Hex as (Hext2 & Hnil & Hexs).
    match goal with |- context [convertTimeseries tss ?o t2 pool1] =>
      destruct (IH o t2 pool1 Hrest Hok1) as (out' & t' & pool' & Hc & Hext & Hok' & new & Hel & Hnew)
    end.
    exists out', t', pool'. split; [done|].
    split; [eauto using extends_trans|]. split; [done|].
    eexists (_ :: new). split.
    + rewrite Hel, elems_append. by rewrite <- app_assoc.
    + constructor; [|done]. exists ts. split; [done|].
      repeat split; simpl; try done; try tauto.
      * rewrite Hrs. apply (refs_of_extends t1); [eauto using extends_trans | done].
      * eapply Forall2_impl; [done|]. intros ??. by apply exemplar_of_extends.
Qed.

Lemma convertTimeseries_None tss out t pool :
  ¬ Forall is_Some tss → (convertTimeseries tss out t pool).1.1 = None.
Proof.
  revert out t pool. induction tss as [|ots tss IH]; intros out t pool Hn; simpl.
  - destruct Hn. constructor.
  - destruct ots as [ts|]; [|done].
    destruct (acquireLabelsRefs ts pool) as [refs0 pool1].
    destruct (symbolizeLabels _ _ _) as [refs t1].
    destruct (FromExemplarsToExemplarsRW2 _ _) as [exs2 t2].
    apply IH. intros H. apply Hn. by constructor.
Qed.

Lemma convertTimeseries_is_Some tss out t pool :
  Forall is_Some tss → is_Some (convertTimeseries tss out t pool).1.1.
Proof.
  revert out t pool. induction tss as [|ots tss IH]; intros out t pool Hall; simpl.
  - by eexists.
  - inversion Hall as [|?? [ts ->] Hrest]; subst.
    destruct (acquireLabelsRefs ts pool) as [refs0 pool1].
    destruct (symbolizeLabels _ _ _) as [refs t1].
    destruct (FromExemplarsToExemplarsRW2 _ _) as [exs2 t2].
    by apply IH.
Qed.

Lemma convertMetadata_spec metas out t :
  Forall is_Some metas →
  ∃ out' t', convertMetadata metas out t = (Some out', t') ∧ extends t t' ∧
    ∃ new, elems out' = elems out ++ new ∧ Forall2 (synthetic_of t') metas new.
Proof.
  revert out t. induction metas as [|meta metas IH]; intros out t Hsome; simpl.
  - exists out, t. split; [done|]. split; [apply extends_refl|].
    exists []. split; [by rewrite app_nil_r | constructor].
  - inversion Hsome as [|?? [m ->] Hrest]; subst.
    change (Symbolize "__name__"%string t) with (Symbols.Symbolize "__name__"%string t).
    destruct (Symbols.Symbolize "__name__"%string t) as [nk t1] eqn:Hnk.
    change (Symbolize (mm_MetricFamilyName m) t1)
      with (Symbols.Symbolize (mm_MetricFamilyName m) t1).
    destruct (Symbols.Symbolize (mm_MetricFamilyName m) t1) as [n t2] eqn:Hn.
    unfold FromMetricMetadataToMetadataRW2.
    change (Symbolize (mm_Help m) t2) with (Symbols.Symbolize (mm_Help m) t2).
    destruct (Symbols.Symbolize (mm_Help m) t2) as [h t3] eqn:Hh.
    change (Symbolize (mm_Unit m) t3) with (Symbols.Symbolize (mm_Unit m) t3).
    destruct (Symbols.Symbolize (mm_Unit m) t3) as [u t4] eqn:Hu.
    apply Symbolize_spec in Hnk as [E1 Hnk], Hn as [E2 Hn], Hh as [E3 Hh], Hu as [E4 Hu].
    edestruct (IH (append out
        [{| ts2_LabelsRefs := slice_mk [nk; n] 0; ts2_Samples := slice_nil;
            ts2_Histograms := slice_nil; ts2_Exemplars := slice_nil;
            ts2_Metadata := {| md2_Type := mm_Type m; md2_HelpRef := h; md2_UnitRef := u |};
            ts2_CreatedTimestamp := 0%Z |}]) t4 Hrest)
      as (out' & t' & Hc & E5 & new & Hel & Hnew).
    exists out', t'. split; [done|].
    assert (extends t4 t') as E45 by done.
    assert (extends t3 t') as E35 by eauto using extends_trans.
    assert (extends t2 t') as E25 by eauto using extends_trans.
    assert (extends t1 t') as E15 by eauto using extends_trans.
    split; [eauto using extends_trans|].
    eexists (_ :: new). split.
    + rewrite Hel, elems_append. by rewrite <- app_assoc.
    + constructor; [|done]. exists m, nk, n. simpl.
      repeat split; try done; eauto using lookup_ref_extends.
Qed.

Lemma convertMetadata_None metas out t :
  ¬ Forall is_Some metas → (convertMetadata metas out t).1 = None.
Proof.
  revert out t. induction metas as [|meta metas IH]; intros out t Hn; simpl.
  - destruct Hn. constructor.
  - destruct meta as [m|].
    + destruct (Symbolize "__name__"%string t) as [nk t1].
      destruct (Symbolize (mm_MetricFamilyName m) t1) as [n t2].
      destruct (Symbolize (mm_Help m) t2) as [h t3].
      destruct (Symbolize (mm_Unit m) t3) as [u t4].
      apply IH. intros H. apply Hn. by constructor.
    + by destruct (Symbolize "__name__"%string t).
Qed.

Lemma timeSeriesRW2SliceFromPool_empty pool s pool' :
  pool_ok pool → timeSeriesRW2SliceFromPool pool = (s, pool') → elems s = [] ∧ pool_ok pool'.
Proof.
  intros Hok. unfold timeSeriesRW2SliceFromPool. destruct pool as [|s0 pool].
  - intros [= <- <-]. by split.
  - inversion Hok; subst. intros [= <- <-]. by split.
Qed.

(** The whole conversion of a convertible request: it returns a new request,
    stored past the existing ones, whose series are the images of the input
    series followed by the synthetic series of the metadata entries, all
    under one table whose symbol list is the output's. *)
Lemma FromWriteRequestToRW2Request_spec w p rw1 cs off :
  convertible w p rw1 →
  ∃ out tF w',
    FromWriteRequestToRW2Request (Some p) cs off w = (Ok (Some (length (requests w))), w') ∧
    requests w' = requests w ++ [out] ∧
    pools_ok w' ∧
    Source out = Source rw1 ∧
    SkipLabelValidation out = SkipLabelValidation rw1 ∧
    SkipLabelCountValidation out = SkipLabelCountValidation rw1 ∧
    skipUnmarshalingExemplars out = skipUnmarshalingExemplars rw1 ∧
    Timeseries out = slice_nil ∧ Metadata out = slice_nil ∧
    elems (SymbolsRW2 out) = Symbols.SymbolList tF ∧
    ∃ real synth,
      elems (TimeseriesRW2 out) = real ++ synth ∧
      Forall2 (pointed (series_of tF)) (elems (Timeseries rw1)) real ∧
      Forall2 (synthetic_of tF) (elems (Metadata rw1)) synth.
Proof.
  intros (Hp & Hsym & Hts & Hseries & Hmeta & Hts_ok & Hrefs_ok).
  unfold FromWriteRequestToRW2Request. rewrite Hp.
  rewrite decide_False by lia.
  destruct (symbolsTableFromPool (symbolsPools w)) as [t0 sp].
  destruct (timeSeriesRW2SliceFromPool (preallocTimeseriesRW2SlicePool w))
    as [buf tsPool] eqn:Hbuf.
  apply (timeSeriesRW2SliceFromPool_empty _ _ _ Hts_ok) in Hbuf as [Hbuf Hts_ok'].
  set (buf' := if decide (cap buf < len (Timeseries rw1) + len (Metadata rw1))
               then make (len (Timeseries rw1) + len (Metadata rw1)) else buf).
  assert (elems buf' = []) as Hbuf'.
  { unfold buf'. by case_decide. }
  destruct (convertTimeseries_spec (elems (Timeseries rw1)) buf'
              (Symbols.ConfigureCommonSymbols off cs t0) (preallocLabelsRefsSlicePool w)
              Hseries Hrefs_ok)
    as (out1 & t1 & refsPool & Hconv & E1 & Hrefs_ok' & real & Hreal & Hreals).
  rewrite Hconv.
  rewrite Hbuf' in Hreal. simpl in Hreal.
  destruct (convertMetadata_spec _ out1 t1 Hmeta) as (out2 & t2 & Hmd & E2 & synth & Hsynth & Hsyn).
  rewrite Hmd.
  destruct (symbolsSliceFromPool sp) as [syms sp'].
  eexists _, t2, _. split; [done|]. simpl.
  repeat split; try done.
  exists real, synth. simpl. split; [by rewrite Hsynth, Hreal|]. split; [|done].
  eapply Forall2_impl; [done|]. intros ots ts2 (ts & -> & Hof).
  exists ts. split; [done|]. by apply (series_of_extends t1).
Qed.

End mimirpb_lemmas.

(** * The conversion as a whole *)

Section mimirpb_claims.
Context `{env : Env}.

(** What a call on a request without RW2 content does, whatever the pools
    hold: the request is where it was; with no nil series and no nil metadata
    entry a new request is returned, stored past the existing ones, with the
    control fields of the input; with a nil series or a nil metadata entry
    the call panics. *)
Lemma FromWriteRequestToRW2Request_frame w p rw1 cs off :
  requests w !! p = Some rw1 →
  len (SymbolsRW2 rw1) = 0 → len (TimeseriesRW2 rw1) = 0 →
  let res := (FromWriteRequestToRW2Request (Some p) cs off w).1 in
  let w' := (FromWriteRequestToRW2Request (Some p) cs off w).2 in
  requests w' !! p = Some rw1 ∧
  (Forall is_Some (elems (Timeseries rw1)) → Forall is_Some (elems (Metadata rw1)) →
     ∃ out, res = Ok (Some (length (requests w))) ∧
       requests w' = requests w ++ [out] ∧
       Source out = Source rw1 ∧
       SkipLabelValidation out = SkipLabelValidation rw1 ∧
       SkipLabelCountValidation out = SkipLabelCountValidation rw1 ∧
       skipUnmarshalingExemplars out = skipUnmarshalingExemplars rw1) ∧
  (¬ (Forall is_Some (elems (Timeseries rw1)) ∧ Forall is_Some (elems (Metadata rw1))) →
     res = Panic ∧ requests w' = requests w).
Proof.
  intros Hp Hsym Hts. unfold FromWriteRequestToRW2Request. rewrite Hp.
  rewrite decide_False by lia.
  destruct (symbolsTableFromPool (symbolsPools w)) as [t0 sp].
  destruct (timeSeriesRW2SliceFromPool (preallocTimeseriesRW2SlicePool w)) as [buf tsPool].
  match goal with |- context [convertTimeseries ?l ?o ?t ?pl] =>
    pose proof (convertTimeseries_is_Some l o t pl) as Hsome;
    pose proof (convertTimeseries_None l o t pl) as Hnone;
    destruct (convertTimeseries l o t pl) as [[[out1|] t1] refsPool] end;
    simpl in Hsome, Hnone.
  - assert (Forall is_Some (elems (Timeseries rw1))) as Hseries.
    { destruct (decide (Forall is_Some (elems (Timeseries rw1)))) as [?|Hn]; [done|].
      by specialize (Hnone Hn). }
    destruct (decide (Forall is_Some (elems (Metadata rw1)))) as [Hall|Hnot].
    + destruct (convertMetadata_spec _ out1 t1 Hall) as (out2 & t2 & -> & _).
      destruct (symbolsSliceFromPool sp) as [syms sp']. simpl.
      split; [by apply lookup_app_l_Some|]. split; [|intros Hn; by destruct Hn].
      intros _ _. by eexists.
    + pose proof (convertMetadata_None _ out1 t1 Hnot) as Hmd.
      destruct (convertMetadata (elems (Metadata rw1)) out1 t1) as [[out2|] t2]; [done|].
      simpl. split; [done|]. split; [done|]. by intros _.
  - simpl. split; [done|]. split; [|done].
    intros Hseries _. by destruct (Hsome Hseries).
Qed.

(** C1: for a convertible request, the conversion returns a new request in
    which the [i]-th series has a [LabelsRefs] sequence of length twice the
    number of label pairs of the [i]-th input series, and reading that
    sequence as consecutive (name-ref, value-ref) pairs through the output's
    symbol list gives back the input series' label pairs, in their order. *)
Theorem C1_labels_refs_round_trip w p rw1 cs off :
  convertible w p rw1 →
  ∃ out w',
    FromWriteRequestToRW2Request (Some p) cs off w = (Ok (Some (length (requests w))), w') ∧
    requests w' !! length (requests w) = Some out ∧
    ∀ i ts, elems (Timeseries rw1) !! i = Some (Some ts) →
      ∃ ts2, elems (TimeseriesRW2 out) !! i = Some ts2 ∧
        len (ts2_LabelsRefs ts2) = 2 * len (ts_Labels ts) ∧
        deref_pairs (elems (SymbolsRW2 out)) (elems (ts2_LabelsRefs ts2))
          = Some (elems (ts_Labels ts)).
Proof.
  intros Hconv.
  destruct (FromWriteRequestToRW2Request_spec w p rw1 cs off Hconv)
    as (out & tF & w' & Hres & Hreq & _ & _ & _ & _ & _ & _ & _ & Hsyms & real & synth
        & Hel & Hreal & _).
  exists out, w'. split; [done|]. split.
  { rewrite Hreq. by apply list_lookup_middle. }
  intros i ts Hi.
  destruct (Forall2_lookup_l _ _ _ _ _ Hreal Hi) as (ts2 & Hi2 & ts' & [= <-] & Hof).
  exists ts2. split; [rewrite Hel; by apply lookup_app_l_Some|].
  destruct Hof as (Hrefs & _). split.
  - by apply refs_of_length in Hrefs.
  - rewrite Hsyms. by apply refs_of_deref.
Qed.

(** C2: the conversion returns an error exactly when its argument points to
    a request whose symbol list or RW2 series list is non-empty; on that
    error the world, pools and requests alike, is as before the call; a nil
    argument gives a nil result, no error and an unchanged world. *)
Theorem C2_already_converted_error rw1 cs off w :
  let res := (FromWriteRequestToRW2Request rw1 cs off w).1 in
  let w' := (FromWriteRequestToRW2Request rw1 cs off w).2 in
  ((∃ msg, res = Err msg) ↔
     ∃ p r, rw1 = Some p ∧ requests w !! p = Some r ∧
       (0 < len (SymbolsRW2 r) ∨ 0 < len (TimeseriesRW2 r))) ∧
  ((∃ msg, res = Err msg) → w' = w) ∧
  (rw1 = None → res = Ok None ∧ w' = w).
Proof.
  unfold FromWriteRequestToRW2Request.
  destruct rw1 as [p|]; simpl; [|naive_solver].
  destruct (requests w !! p) as [r|] eqn:Hp; simpl; [|naive_solver].
  case_decide as Hrw2; simpl; [naive_solver|].
  destruct (symbolsTableFromPool (symbolsPools w)) as [t0 sp].
  destruct (timeSeriesRW2SliceFromPool (preallocTimeseriesRW2SlicePool w)) as [buf tsPool].
  destruct (convertTimeseries _ _ _ _) as [[[out1|] t1] refsPool]; [|simpl; naive_solver].
  destruct (convertMetadata _ _ _) as [[out2|] t2].
  - destruct (symbolsSliceFromPool sp) as [syms sp']. simpl. naive_solver.
  - simpl. naive_solver.
Qed.

(** C3: for a convertible request, the output series are the converted real
    series, one per input series and each with the zero metadata block,
    followed by one synthetic series per metadata entry in the input's
    metadata order; a synthetic series has exactly one label pair, the
    reserved name key with the entry's metric family name, the metadata block
    of that entry, and no samples, histograms, exemplars or created
    timestamp. *)
Theorem C3_metadata_becomes_synthetic_series w p rw1 cs off :
  convertible w p rw1 →
  ∃ out w' real synth,
    FromWriteRequestToRW2Request (Some p) cs off w = (Ok (Some (length (requests w))), w') ∧
    requests w' !! length (requests w) = Some out ∧
    elems (TimeseriesRW2 out) = real ++ synth ∧
    Forall2 (λ _ ts2, ts2_Metadata ts2 = MetadataRW2_zero) (elems (Timeseries rw1)) real ∧
    Forall2 (λ meta ts2, ∃ m, meta = Some m ∧
               synthetic_series (elems (SymbolsRW2 out)) m ts2)
      (elems (Metadata rw1)) synth.
Proof.
  intros Hconv.
  destruct (FromWriteRequestToRW2Request_spec w p rw1 cs off Hconv)
    as (out & tF & w' & Hres & Hreq & _ & _ & _ & _ & _ & _ & _ & Hsyms & real & synth
        & Hel & Hreal & Hsynth).
  exists out, w', real, synth. split; [done|]. split.
  { rewrite Hreq. by apply list_lookup_middle. }
  split; [done|]. split.
  - eapply Forall2_impl; [done|]. by intros ots ts2 (ts&_&_&_&_&_&_&?&_).
  - eapply Forall2_impl; [done|].
    intros meta ts2 (m & nk & n & -> & Hrefs & Hnk & Hn & Hty & Hh & Hu & ? & ? & ? & ?).
    exists m. split; [done|]. rewrite Hsyms. unfold synthetic_series, len.
    rewrite Hrefs. simpl.
    rewrite (lookup_ref_SymbolList _ _ _ Hnk), (lookup_ref_SymbolList _ _ _ Hn).
    repeat split; try done; by apply lookup_ref_SymbolList.
Qed.


(** C5: [FromExemplarsToExemplarsRW2] returns nil exactly when its input is
    nil; a present input without elements gives a present result without
    elements; and the result holds one exemplar per input exemplar, in order,
    each with a reference list made for it, of length and capacity twice its
    label count, and with the value and timestamp of the input exemplar. *)
Theorem C5_exemplars_absence_and_shape {T} `{!StringSymbolizer T}
    (exemplars : slice Exemplar) (symbols : T) :
  let res := (FromExemplarsToExemplarsRW2 exemplars symbols).1 in
  (res = slice_nil ↔ exemplars = slice_nil) ∧
  (exemplars ≠ slice_nil ∧ len exemplars = 0 → res ≠ slice_nil ∧ len res = 0) ∧
  Forall2 exemplar_shape (elems exemplars) (elems res).
Proof.
  destruct exemplars as [|l sp]; simpl.
  { split; [done|]. split; [by intros [? _] | constructor]. }
  destruct (convertExemplars_shape l (make (length l)) symbols) as (Hn & _ & new & Hel & Hnew).
  simpl in Hel. split; [|split].
  - split; [|done]. intros Heq. by destruct Hn.
  - intros [_ Hlen]. split; [by apply Hn|].
    unfold len in *. simpl in Hlen. rewrite Hel.
    apply Forall2_length in Hnew. lia.
  - by rewrite Hel.
Qed.

End mimirpb_claims.

(** * Releasing buffers *)

Section mimirpb_release.
Context `{env : Env}.

Lemma reuseLabelsRefsSlice_kept (s : slice ref) pool :
  0 < cap s ≤ maxPreallocatedLabelsRefs →
  reuseLabelsRefsSlice s pool = (clear 0 s, reslice0 s :: pool).
Proof.
  intros [Hpos Hmax]. unfold reuseLabelsRefsSlice.
  rewrite decide_False by lia. rewrite decide_False by lia.
  destruct s as [|l sp]; simpl; [done|]. by rewrite length_replicate.
Qed.

Lemma reuseLabelsRefsSlice_dropped (s : slice ref) pool :
  cap s = 0 ∨ maxPreallocatedLabelsRefs < cap s →
  reuseLabelsRefsSlice s pool = (s, pool).
Proof.
  intros Hcap. unfold reuseLabelsRefsSlice.
  case_decide; [done|]. rewrite decide_True; [done|]. by destruct Hcap.
Qed.

Lemma reuseTimeSeriesRW2Elems_spec l refsPool :
  reuseTimeSeriesRW2Elems l refsPool =
    (replicate (length l) TimeSeriesRW2_zero,
     foldl (λ pool e, (reuseLabelsRefsSlice (ts2_LabelsRefs e) pool).2) refsPool l).
Proof.
  revert refsPool. induction l as [|e l IH]; intros refsPool; simpl; [done|].
  destruct (reuseLabelsRefsSlice (ts2_LabelsRefs e) refsPool) as [s' pool1]. simpl.
  by rewrite IH.
Qed.

Lemma reuseTimeSeriesRW2Slice_kept (s : slice TimeSeriesRW2) tsPool refsPool :
  0 < cap s ≤ maxPreallocatedTimeseriesRW2 →
  reuseTimeSeriesRW2Slice s tsPool refsPool =
    (clear TimeSeriesRW2_zero s, reslice0 s :: tsPool,
     foldl (λ pool e, (reuseLabelsRefsSlice (ts2_LabelsRefs e) pool).2) refsPool (elems s)).
Proof.
  intros [Hpos Hmax]. unfold reuseTimeSeriesRW2Slice.
  rewrite decide_False by lia. rewrite decide_False by lia.
  destruct s as [|l sp]; [simpl in Hpos; lia|].
  rewrite reuseTimeSeriesRW2Elems_spec. simpl. by rewrite length_replicate.
Qed.

Lemma reuseTimeSeriesRW2Slice_dropped (s : slice TimeSeriesRW2) tsPool refsPool :
  cap s = 0 ∨ maxPreallocatedTimeseriesRW2 < cap s →
  reuseTimeSeriesRW2Slice s tsPool refsPool = (s, tsPool, refsPool).
Proof.
  intros Hcap. unfold reuseTimeSeriesRW2Slice.
  case_decide; [done|]. rewrite decide_True; [done|]. by destruct Hcap.
Qed.

(** C6, as the code has it: the two maxima are 200 and 10000; a buffer whose
    capacity is non-zero and at most the pool's maximum has every live
    element cleared and goes on top of the pool, emptied, with its capacity;
    a buffer of capacity zero or above the maximum is left as it is, its
    elements not cleared, and the pool is unchanged. *)
Theorem C6_release_clears_and_retains_within_bounds
    (s : slice ref) (pool : list (slice ref))
    (s2 : slice TimeSeriesRW2) (tsPool : list (slice TimeSeriesRW2)) (refsPool : list (slice ref)) :
  maxPreallocatedLabelsRefs = 200 ∧ maxPreallocatedTimeseriesRW2 = 10000 ∧
  (0 < cap s ≤ maxPreallocatedLabelsRefs →
     ∃ s' kept, reuseLabelsRefsSlice s pool = (s', kept :: pool) ∧
       elems s' = replicate (len s) 0 ∧ elems kept = [] ∧ cap kept = cap s) ∧
  (cap s = 0 ∨ maxPreallocatedLabelsRefs < cap s → reuseLabelsRefsSlice s pool = (s, pool)) ∧
  (0 < cap s2 ≤ maxPreallocatedTimeseriesRW2 →
     ∃ s2' kept refsPool', reuseTimeSeriesRW2Slice s2 tsPool refsPool = (s2', kept :: tsPool, refsPool') ∧
       elems s2' = replicate (len s2) TimeSeriesRW2_zero ∧ elems kept = [] ∧ cap kept = cap s2) ∧
  (cap s2 = 0 ∨ maxPreallocatedTimeseriesRW2 < cap s2 →
     reuseTimeSeriesRW2Slice s2 tsPool refsPool = (s2, tsPool, refsPool)).
Proof.
  split; [done|]. split; [done|]. split; [|split; [|split]].
  - intros Hcap. eexists _, _. split; [by apply reuseLabelsRefsSlice_kept|].
    split; [apply elems_clear|]. split; [apply elems_reslice0 | apply cap_reslice0].
  - apply reuseLabelsRefsSlice_dropped.
  - intros Hcap. eexists _, _, _. split; [by apply reuseTimeSeriesRW2Slice_kept|].
    split; [apply elems_clear|]. split; [apply elems_reslice0 | apply cap_reslice0].
  - apply reuseTimeSeriesRW2Slice_dropped.
Qed.

(** C10, as the code has it: releasing a series buffer whose capacity is
    non-zero and at most 10000 offers the [LabelsRefs] of every element, in
    order, to the label-reference pool under that pool's own rules, zeroes
    every element, and puts the emptied buffer on top of the series pool; a
    series buffer of capacity zero or above 10000 is left as it is and none of
    its nested buffers is offered.  [ReuseRW2] on a request releases its
    symbol slice through [reuseSymbolsSlice] and its series slice in this
    way. *)
Theorem C10_release_cascades_within_bounds
    (s : slice TimeSeriesRW2) (tsPool : list (slice TimeSeriesRW2)) (refsPool : list (slice ref))
    (w : World) (p : ptr) (r : WriteRequest) :
  (0 < cap s ≤ maxPreallocatedTimeseriesRW2 →
     reuseTimeSeriesRW2Slice s tsPool refsPool =
       (clear TimeSeriesRW2_zero s, reslice0 s :: tsPool,
        foldl (λ pool e, (reuseLabelsRefsSlice (ts2_LabelsRefs e) pool).2) refsPool (elems s))) ∧
  (cap s = 0 ∨ maxPreallocatedTimeseriesRW2 < cap s →
     reuseTimeSeriesRW2Slice s tsPool refsPool = (s, tsPool, refsPool)) ∧
  (requests w !! p = Some r →
     ∃ w', ReuseRW2 (Some p) w = Some w' ∧
       symbolsPools w' = (reuseSymbolsSlice (SymbolsRW2 r) (symbolsPools w)).2 ∧
       (preallocTimeseriesRW2SlicePool w', preallocLabelsRefsSlicePool w') =
         (let '(_, tsPool', refsPool') :=
            reuseTimeSeriesRW2Slice (TimeseriesRW2 r)
              (preallocTimeseriesRW2SlicePool w) (preallocLabelsRefsSlicePool w) in
          (tsPool', refsPool'))).
Proof.
  split; [apply reuseTimeSeriesRW2Slice_kept|].
  split; [apply reuseTimeSeriesRW2Slice_dropped|].
  intros Hp. unfold ReuseRW2. rewrite Hp.
  destruct (reuseSymbolsSlice (SymbolsRW2 r) (symbolsPools w)) as [syms sp].
  destruct (reuseTimeSeriesRW2Slice _ _ _) as [[ts tsPool'] refsPool'].
  by eexists.
Qed.

(** C8: for a request without RW2 content, the request is unchanged after
    the call, whatever the call returns; when no series and no metadata entry
    is nil the call returns a new request, distinct from the input, whose
    [Source], [SkipLabelValidation], [SkipLabelCountValidation] and
    [skipUnmarshalingExemplars] are the input's; when a series or a metadata
    entry is nil the call panics and no request is added. *)
Theorem C8_control_fields_copied_input_untouched w p rw1 cs off :
  requests w !! p = Some rw1 →
  len (SymbolsRW2 rw1) = 0 → len (TimeseriesRW2 rw1) = 0 →
  let res := (FromWriteRequestToRW2Request (Some p) cs off w).1 in
  let w' := (FromWriteRequestToRW2Request (Some p) cs off w).2 in
  requests w' !! p = Some rw1 ∧
  (Forall is_Some (elems (Timeseries rw1)) → Forall is_Some (elems (Metadata rw1)) →
     ∃ p' out, res = Ok (Some p') ∧ p' ≠ p ∧
       requests w' !! p' = Some out ∧
       Source out = Source rw1 ∧
       SkipLabelValidation out = SkipLabelValidation rw1 ∧
       SkipLabelCountValidation out = SkipLabelCountValidation rw1 ∧
       skipUnmarshalingExemplars out = skipUnmarshalingExemplars rw1) ∧
  (¬ (Forall is_Some (elems (Timeseries rw1)) ∧ Forall is_Some (elems (Metadata rw1))) →
     res = Panic ∧ requests w' = requests w).
Proof.
  intros Hp Hsym Hts.
  destruct (FromWriteRequestToRW2Request_frame w p rw1 cs off Hp Hsym Hts)
    as (Hin & Hok & Hpanic).
  split; [done|]. split; [|done].
  intros Hseries Hall. destruct (Hok Hseries Hall) as (out & Hres & Hreq & Hfields).
  exists (length (requests w)), out. split; [done|]. split.
  { apply lookup_lt_Some in Hp. lia. }
  split; [|done]. rewrite Hreq. by apply list_lookup_middle.
Qed.

(** C9, as the code has it: the call does not panic on a nil argument, nor
    on a request whose series and metadata entries are all non-nil; on a
    request without RW2 content that has a nil series or a nil metadata entry
    it does, the series loop reading [ts.Labels] and the metadata loop
    reading [meta.MetricFamilyName] without a nil check; and
    [FromMetricMetadataToMetadataRW2] itself maps a nil entry to the zero
    value without touching the symbolizer. *)
Theorem C9_panics_exactly_on_nil_series_or_metadata cs off w :
  (FromWriteRequestToRW2Request None cs off w).1 ≠ Panic ∧
  (∀ p rw1, requests w !! p = Some rw1 →
     Forall is_Some (elems (Timeseries rw1)) →
     Forall is_Some (elems (Metadata rw1)) →
     (FromWriteRequestToRW2Request (Some p) cs off w).1 ≠ Panic) ∧
  (∀ p rw1, requests w !! p = Some rw1 →
     len (SymbolsRW2 rw1) = 0 → len (TimeseriesRW2 rw1) = 0 →
     ¬ (Forall is_Some (elems (Timeseries rw1)) ∧ Forall is_Some (elems (Metadata rw1))) →
     (FromWriteRequestToRW2Request (Some p) cs off w).1 = Panic) ∧
  (∀ T (S : StringSymbolizer T) (symbols : T),
     FromMetricMetadataToMetadataRW2 None symbols = (MetadataRW2_zero, symbols)).
Proof.
  split; [done|]. split; [|split; [|done]].
  - intros p rw1 Hp Hseries Hall.
    destruct (decide (0 < len (SymbolsRW2 rw1) ∨ 0 < len (TimeseriesRW2 rw1))) as [Hrw2|Hrw2].
    + unfold FromWriteRequestToRW2Request. rewrite Hp. by rewrite decide_True.
    + destruct (FromWriteRequestToRW2Request_frame w p rw1 cs off Hp) as (_ & Hok & _);
        [lia..|].
      destruct (Hok Hseries Hall) as (out & -> & _). done.
  - intros p rw1 Hp Hsym Hts Hnot.
    destruct (FromWriteRequestToRW2Request_frame w p rw1 cs off Hp Hsym Hts) as (_ & _ & Hpanic).
    by destruct (Hpanic Hnot).
Qed.

End mimirpb_release.

(** * Further properties of the pools and of the conversion *)

Section mimirpb_properties.
Context `{env : Env}.

Lemma pool_bounded_ok {A} max (pool : list (slice A)) : pool_bounded max pool → pool_ok pool.
Proof.
  unfold pool_bounded, pool_ok. intros H. eapply Forall_impl; [done|]. by intros s [? _].
Qed.

Lemma pools_bounded_ok w : pools_bounded w → pools_ok w.
Proof. intros [? ?]. split; by eapply pool_bounded_ok. Qed.

Lemma reuseLabelsRefsSlice_bounded s pool :
  pool_bounded maxPreallocatedLabelsRefs pool →
  pool_bounded maxPreallocatedLabelsRefs (reuseLabelsRefsSlice s pool).2.
Proof.
  intros Hpool. unfold reuseLabelsRefsSlice.
  case_decide as H0; [done|]. case_decide as Hmax; [done|]. simpl.
  constructor; [|done]. rewrite elems_reslice0, cap_reslice0, cap_clear. split; [done|lia].
Qed.

Lemma release_fold_bounded (l : list TimeSeriesRW2) pool :
  pool_bounded maxPreallocatedLabelsRefs pool →
  pool_bounded maxPreallocatedLabelsRefs
    (foldl (λ pool e, (reuseLabelsRefsSlice (ts2_LabelsRefs e) pool).2) pool l).
Proof.
  revert pool. induction l as [|e l IH]; intros pool Hpool; simpl; [done|].
  by apply IH, reuseLabelsRefsSlice_bounded.
Qed.

Lemma reuseTimeSeriesRW2Slice_bounded s tsPool refsPool :
  pool_bounded maxPreallocatedTimeseriesRW2 tsPool →
  pool_bounded maxPreallocatedLabelsRefs refsPool →
  pool_bounded maxPreallocatedTimeseriesRW2 (reuseTimeSeriesRW2Slice s tsPool refsPool).1.2 ∧
  pool_bounded maxPreallocatedLabelsRefs (reuseTimeSeriesRW2Slice s tsPool refsPool).2.
Proof.
  intros Hts Hrefs.
  destruct (decide (0 < cap s ≤ maxPreallocatedTimeseriesRW2)) as [Hcap|Hcap].
  - rewrite reuseTimeSeriesRW2Slice_kept by done. simpl. split.
    + constructor; [|done]. by rewrite elems_reslice0, cap_reslice0.
    + by apply release_fold_bounded.
  - rewrite reuseTimeSeriesRW2Slice_dropped by lia. by split.
Qed.

(** [ReuseRW2] keeps the pools well formed: if every retained buffer is
    empty, of non-zero capacity at most its pool's maximum, the same holds
    after releasing any request. *)
Theorem ReuseRW2_keeps_pools_bounded w p w' :
  pools_bounded w → ReuseRW2 (Some p) w = Some w' → pools_bounded w'.
Proof.
  intros [Hts Hrefs]. unfold ReuseRW2.
  destruct (requests w !! p) as [r|]; [|done].
  destruct (reuseSymbolsSlice (SymbolsRW2 r) (symbolsPools w)) as [syms sp].
  pose proof (reuseTimeSeriesRW2Slice_bounded (TimeseriesRW2 r) _ _ Hts Hrefs) as [H1 H2].
  destruct (reuseTimeSeriesRW2Slice _ _ _) as [[ts tsPool'] refsPool'].
  intros [= <-]. by split.
Qed.

(** A buffer acquired from a well-formed pool, retained or new, is empty and
    has a non-zero capacity of at most the pool's maximum, and the pool stays
    well formed. *)
Theorem acquire_from_bounded_pool
    (tsPool : list (slice TimeSeriesRW2)) (refsPool : list (slice ref)) :
  pool_bounded maxPreallocatedTimeseriesRW2 tsPool →
  pool_bounded maxPreallocatedLabelsRefs refsPool →
  (elems (timeSeriesRW2SliceFromPool tsPool).1 = [] ∧
   0 < cap (timeSeriesRW2SliceFromPool tsPool).1 ≤ maxPreallocatedTimeseriesRW2 ∧
   pool_bounded maxPreallocatedTimeseriesRW2 (timeSeriesRW2SliceFromPool tsPool).2) ∧
  (elems (labelsRefsSliceFromPool refsPool).1 = [] ∧
   0 < cap (labelsRefsSliceFromPool refsPool).1 ≤ maxPreallocatedLabelsRefs ∧
   pool_bounded maxPreallocatedLabelsRefs (labelsRefsSliceFromPool refsPool).2).
Proof.
  intros Hts Hrefs. split.
  - destruct tsPool as [|s tsPool]; simpl.
    + split; [done|]. split; [|done].
      split; [unfold minPreallocatedTimeseriesRW2; lia|].
      apply Nat.leb_le. by vm_compute.
    + inversion Hts as [|?? (? & ? & ?) ?]; subst. by repeat split.
  - destruct refsPool as [|s refsPool]; simpl.
    + split; [done|]. split; [|done].
      unfold minPreallocatedLabelsRefs, maxPreallocatedLabelsRefs. lia.
    + inversion Hrefs as [|?? (? & ? & ?) ?]; subst. by repeat split.
Qed.

(** The reference buffers a released series buffer hands to the pool are
    exactly the nested buffers of non-zero capacity at most 200, emptied, the
    one of the last element on top. *)
Lemma release_fold_filter (l : list TimeSeriesRW2) pool :
  foldl (λ pool e, (reuseLabelsRefsSlice (ts2_LabelsRefs e) pool).2) pool l =
    reverse (reslice0 <$> filter retained_refs (ts2_LabelsRefs <$> l)) ++ pool.
Proof.
  revert pool. induction l as [|e l IH]; intros pool; simpl; [done|].
  rewrite IH. rewrite filter_cons. unfold retained_refs at 2.
  destruct (decide (0 < cap (ts2_LabelsRefs e) ≤ 200)) as [Hcap|Hcap].
  - rewrite reuseLabelsRefsSlice_kept by done. simpl.
    rewrite reverse_cons. by rewrite <- app_assoc.
  - rewrite reuseLabelsRefsSlice_dropped; [done|].
    unfold maxPreallocatedLabelsRefs. lia.
Qed.

(** Releasing a series buffer of non-zero capacity at most 10000 adds to the
    label-reference pool exactly its nested buffers of non-zero capacity at
    most 200, emptied; the other nested buffers are dropped. *)
Theorem reuseTimeSeriesRW2Slice_retained_refs
    (s : slice TimeSeriesRW2) tsPool (refsPool : list (slice ref)) :
  0 < cap s ≤ maxPreallocatedTimeseriesRW2 →
  (reuseTimeSeriesRW2Slice s tsPool refsPool).2 =
    reverse (reslice0 <$> filter retained_refs (ts2_LabelsRefs <$> elems s)) ++ refsPool.
Proof.
  intros Hcap. rewrite reuseTimeSeriesRW2Slice_kept by done. simpl.
  apply release_fold_filter.
Qed.

Lemma cap_append_within {A} (s : slice A) xs :
  len s + length xs ≤ cap s → cap (append s xs) = cap s.
Proof.
  intros Hfit. destruct s as [|l sp].
  - unfold len in Hfit. simpl in Hfit. by destruct xs; [|simpl in Hfit; lia].
  - by apply cap_append_fits.
Qed.

Lemma acquireLabelsRefs_pool ts (pool : list (slice ref)) :
  (acquireLabelsRefs ts pool).2 = drop 1 pool.
Proof.
  unfold acquireLabelsRefs. destruct pool as [|s pool]; simpl; try case_decide; done.
Qed.

Lemma convertTimeseries_pool tss out t (pool : list (slice ref)) :
  (convertTimeseries tss out t pool).2 = drop (leading_non_nil tss) pool.
Proof.
  revert out t pool. induction tss as [|ots tss IH]; intros out t pool; simpl.
  - by rewrite drop_0.
  - destruct ots as [ts|]; simpl; [|by rewrite drop_0].
    pose proof (acquireLabelsRefs_pool ts pool) as Hacq.
    destruct (acquireLabelsRefs ts pool) as [refs0 pool1]. simpl in Hacq. subst pool1.
    destruct (symbolizeLabels _ _ _) as [refs t1].
    destruct (FromExemplarsToExemplarsRW2 _ _) as [exs2 t2].
    rewrite IH. rewrite drop_drop. f_equal.
Qed.

Lemma leading_non_nil_all {A} (l : list (option A)) :
  Forall is_Some l → leading_non_nil l = length l.
Proof.
  induction 1 as [|o l [a ->] _ IH]; simpl; [done|]. by rewrite IH.
Qed.

Lemma convertTimeseries_cap tss out t pool out' t' pool' :
  convertTimeseries tss out t pool = (Some out', t', pool') →
  len out' = len out + length tss ∧
  (len out + length tss ≤ cap out → cap out' = cap out).
Proof.
  revert out t pool. induction tss as [|ots tss IH]; intros out t pool; simpl.
  - intros [= <- <- <-]. split; [lia|done].
  - destruct ots as [ts|]; [|done].
    destruct (acquireLabelsRefs ts pool) as [refs0 pool1].
    destruct (symbolizeLabels _ _ _) as [refs t1].
    destruct (FromExemplarsToExemplarsRW2 _ _) as [exs2 t2].
    intros Hrest. apply IH in Hrest as [Hlen Hcap].
    rewrite len_append in Hlen, Hcap. simpl in Hlen, Hcap.
    split; [lia|]. intros Hfit. rewrite Hcap.
    + apply cap_append_within. simpl. lia.
    + rewrite cap_append_within; simpl; lia.
Qed.

Lemma convertMetadata_cap metas out t out' t' :
  convertMetadata metas out t = (Some out', t') →
  len out' = len out + length metas ∧
  (len out + length metas ≤ cap out → cap out' = cap out).
Proof.
  revert out t. induction metas as [|meta metas IH]; intros out t; simpl.
  - intros [= <- <-]. split; [lia|done].
  - destruct meta as [m|]; [|by destruct (Symbolize _ _)].
    destruct (Symbolize "__name__"%string t) as [nk t1].
    destruct (Symbolize (mm_MetricFamilyName m) t1) as [n t2].
    destruct (Symbolize (mm_Help m) t2) as [h t3].
    destruct (Symbolize (mm_Unit m) t3) as [u t4].
    intros Hrest. apply IH in Hrest as [Hlen Hcap].
    rewrite len_append in Hlen, Hcap. simpl in Hlen, Hcap.
    split; [lia|]. intros Hfit. rewrite Hcap.
    + apply cap_append_within. simpl. lia.
    + rewrite cap_append_within; simpl; lia.
Qed.

Lemma pool_bounded_drop {A} max n (pool : list (slice A)) :
  pool_bounded max pool → pool_bounded max (drop n pool).
Proof. apply Forall_drop. Qed.

(** A conversion that gets past the RW2 check takes the series buffer on top
    of its pool and one label-reference buffer for every series it reaches,
    those before the first nil series, which is every series when none is
    nil; it puts none back, whether it returns or panics; well-formed pools
    stay well formed. *)
Theorem FromWriteRequestToRW2Request_consumes_pools w p rw1 cs off :
  requests w !! p = Some rw1 →
  len (SymbolsRW2 rw1) = 0 → len (TimeseriesRW2 rw1) = 0 →
  let w' := (FromWriteRequestToRW2Request (Some p) cs off w).2 in
  preallocTimeseriesRW2SlicePool w' = drop 1 (preallocTimeseriesRW2SlicePool w) ∧
  preallocLabelsRefsSlicePool w'
    = drop (leading_non_nil (elems (Timeseries rw1))) (preallocLabelsRefsSlicePool w) ∧
  (Forall is_Some (elems (Timeseries rw1)) →
     preallocLabelsRefsSlicePool w'
       = drop (len (Timeseries rw1)) (preallocLabelsRefsSlicePool w)) ∧
  (pools_bounded w → pools_bounded w').
Proof.
  intros Hp Hsym Hts.
  assert (∀ w', preallocTimeseriesRW2SlicePool w' = drop 1 (preallocTimeseriesRW2SlicePool w) →
    preallocLabelsRefsSlicePool w'
      = drop (leading_non_nil (elems (Timeseries rw1))) (preallocLabelsRefsSlicePool w) →
    preallocTimeseriesRW2SlicePool w' = drop 1 (preallocTimeseriesRW2SlicePool w) ∧
    preallocLabelsRefsSlicePool w'
      = drop (leading_non_nil (elems (Timeseries rw1))) (preallocLabelsRefsSlicePool w) ∧
    (Forall is_Some (elems (Timeseries rw1)) →
       preallocLabelsRefsSlicePool w'
         = drop (len (Timeseries rw1)) (preallocLabelsRefsSlicePool w)) ∧
    (pools_bounded w → pools_bounded w')) as Hfinish.
  { intros w' H1 H2. split; [done|]. split; [done|]. split.
    - intros Hall. rewrite H2. unfold len. by rewrite leading_non_nil_all.
    - intros [? ?]. split; [rewrite H1 | rewrite H2]; by apply pool_bounded_drop. }
  unfold FromWriteRequestToRW2Request. rewrite Hp.
  rewrite decide_False by lia.
  destruct (symbolsTableFromPool (symbolsPools w)) as [t0 sp].
  assert ((timeSeriesRW2SliceFromPool (preallocTimeseriesRW2SlicePool w)).2
          = drop 1 (preallocTimeseriesRW2SlicePool w)) as Htake.
  { by destruct (preallocTimeseriesRW2SlicePool w). }
  destruct (timeSeriesRW2SliceFromPool (preallocTimeseriesRW2SlicePool w)) as [buf tsPool].
  simpl in Htake.
  match goal with |- context [convertTimeseries ?l ?o ?t ?pl] =>
    pose proof (convertTimeseries_pool l o t pl) as Hpool;
    destruct (convertTimeseries l o t pl) as [[[out1|] t1] refsPool] end;
    simpl in Hpool; [|by apply Hfinish].
  destruct (convertMetadata _ _ _) as [[out2|] t2].
  - destruct (symbolsSliceFromPool sp) as [syms sp']. by apply Hfinish.
  - by apply Hfinish.
Qed.

(** The series buffer of the output is sized up front: it holds one series
    per input series and per metadata entry, and its capacity is that of the
    acquired buffer, or the number of series when the acquired buffer is
    smaller, so that no append grows it; the output carries no RW1 series and
    no metadata list. *)
Theorem FromWriteRequestToRW2Request_series_buffer w p rw1 cs off :
  convertible w p rw1 →
  ∃ out w',
    FromWriteRequestToRW2Request (Some p) cs off w = (Ok (Some (length (requests w))), w') ∧
    requests w' !! length (requests w) = Some out ∧
    len (TimeseriesRW2 out) = len (Timeseries rw1) + len (Metadata rw1) ∧
    cap (TimeseriesRW2 out) =
      cap (timeSeriesRW2SliceFromPool (preallocTimeseriesRW2SlicePool w)).1
        `max` (len (Timeseries rw1) + len (Metadata rw1)) ∧
    Timeseries out = slice_nil ∧ Metadata out = slice_nil.
Proof.
  intros (Hp & Hsym & Hts & Hseries & Hmeta & Hts_ok & Hrefs_ok).
  unfold FromWriteRequestToRW2Request. rewrite Hp.
  rewrite decide_False by lia.
  destruct (symbolsTableFromPool (symbolsPools w)) as [t0 sp].
  destruct (timeSeriesRW2SliceFromPool (preallocTimeseriesRW2SlicePool w))
    as [buf tsPool] eqn:Hbuf.
  apply (timeSeriesRW2SliceFromPool_empty _ _ _ Hts_ok) in Hbuf as [Hbuf _].
  set (n := len (Timeseries rw1) + len (Metadata rw1)).
  set (buf' := if decide (cap buf < n) then make n else buf).
  assert (len buf' = 0 ∧ cap buf' = cap buf `max` n) as [Hlen' Hcap'].
  { unfold buf', len. case_decide; simpl; [lia|]. rewrite Hbuf. simpl. lia. }
  destruct (convertTimeseries_spec (elems (Timeseries rw1)) buf'
              (Symbols.ConfigureCommonSymbols off cs t0) (preallocLabelsRefsSlicePool w)
              Hseries Hrefs_ok)
    as (out1 & t1 & refsPool & Hconv & _).
  rewrite Hconv. apply convertTimeseries_cap in Hconv as [Hlen1 Hcap1].
  destruct (convertMetadata_spec _ out1 t1 Hmeta) as (out2 & t2 & Hmd & _).
  rewrite Hmd. apply convertMetadata_cap in Hmd as [Hlen2 Hcap2].
  destruct (symbolsSliceFromPool sp) as [syms sp'].
  eexists _, _. split; [done|]. split; [by apply list_lookup_middle|]. simpl.
  fold (len (Timeseries rw1)) in Hlen1, Hcap1. fold (len (Metadata rw1)) in Hlen2, Hcap2.
  split; [unfold n; lia|]. split; [|done].
  rewrite Hcap2, Hcap1; unfold n in *; lia.
Qed.

(** The payload of every real series is carried through: the samples, the
    histograms and the created timestamp of the [i]-th output series are
    those of the [i]-th input series, its exemplar list is nil exactly when
    the input's is, and its exemplars keep the values and timestamps of the
    input's, in order. *)
Theorem FromWriteRequestToRW2Request_payload w p rw1 cs off :
  convertible w p rw1 →
  ∃ out w',
    FromWriteRequestToRW2Request (Some p) cs off w = (Ok (Some (length (requests w))), w') ∧
    requests w' !! length (requests w) = Some out ∧
    ∀ i ts, elems (Timeseries rw1) !! i = Some (Some ts) →
      ∃ ts2, elems (TimeseriesRW2 out) !! i = Some ts2 ∧
        ts2_Samples ts2 = ts_Samples ts ∧
        ts2_Histograms ts2 = ts_Histograms ts ∧
        ts2_CreatedTimestamp ts2 = ts_CreatedTimestamp ts ∧
        (ts2_Exemplars ts2 = slice_nil ↔ ts_Exemplars ts = slice_nil) ∧
        Forall2 (λ ex ex2, ex2_Value ex2 = ex_Value ex ∧ ex2_Timestamp ex2 = ex_TimestampMs ex)
          (elems (ts_Exemplars ts)) (elems (ts2_Exemplars ts2)).
Proof.
  intros Hconv.
  destruct (FromWriteRequestToRW2Request_spec w p rw1 cs off Hconv)
    as (out & tF & w' & Hres & Hreq & _ & _ & _ & _ & _ & _ & _ & Hsyms & real & synth
        & Hel & Hreal & _).
  exists out, w'. split; [done|]. split.
  { rewrite Hreq. by apply list_lookup_middle. }
  intros i ts Hi.
  destruct (Forall2_lookup_l _ _ _ _ _ Hreal Hi) as (ts2 & Hi2 & ts' & [= <-] & Hof).
  exists ts2. split; [rewrite Hel; by apply lookup_app_l_Some|].
  destruct Hof as (_ & ? & ? & ? & Hex & _ & ?). repeat split; try done; try tauto.
  eapply Forall2_impl; [done|]. by intros ex ex2 (_ & ? & ?).
Qed.

(** Conversion is not re-entrant on its own output: when the input has at
    least one series or metadata entry, converting the request that a
    successful conversion returned fails with the already-RW2 error. *)
Theorem FromWriteRequestToRW2Request_rejects_own_output w p rw1 cs off cs' off' :
  convertible w p rw1 →
  0 < len (Timeseries rw1) + len (Metadata rw1) →
  ∃ p' w',
    FromWriteRequestToRW2Request (Some p) cs off w = (Ok (Some p'), w') ∧
    FromWriteRequestToRW2Request (Some p') cs' off' w'
      = (Err "the provided request is already rw2"%string, w').
Proof.
  intros Hconv Hpos.
  destruct (FromWriteRequestToRW2Request_series_buffer w p rw1 cs off Hconv)
    as (out & w' & Hres & Hout & Hlen & _).
  exists (length (requests w)), w'. split; [done|].
  unfold FromWriteRequestToRW2Request, ptr. rewrite Hout.
  rewrite decide_True; [done|]. right. lia.
Qed.

Lemma len_reuseTimeSeriesRW2Slice (s : slice TimeSeriesRW2) tsPool refsPool :
  len (reuseTimeSeriesRW2Slice s tsPool refsPool).1.1 = len s.
Proof.
  destruct (decide (0 < cap s ≤ maxPreallocatedTimeseriesRW2)) as [Hcap|Hcap].
  - rewrite reuseTimeSeriesRW2Slice_kept by done. simpl. apply len_clear.
  - by rewrite reuseTimeSeriesRW2Slice_dropped by lia.
Qed.

(** [ReuseRW2] zeroes the series of a request but leaves the series slice at
    its length: a released request that had RW2 series is still rejected by
    the conversion as already RW2. *)
Theorem ReuseRW2_request_still_rw2 w p r w' cs off :
  requests w !! p = Some r →
  0 < len (TimeseriesRW2 r) →
  ReuseRW2 (Some p) w = Some w' →
  FromWriteRequestToRW2Request (Some p) cs off w'
    = (Err "the provided request is already rw2"%string, w').
Proof.
  intros Hp Hpos. unfold ReuseRW2. rewrite Hp.
  destruct (reuseSymbolsSlice (SymbolsRW2 r) (symbolsPools w)) as [syms sp].
  pose proof (len_reuseTimeSeriesRW2Slice (TimeseriesRW2 r)
                (preallocTimeseriesRW2SlicePool w) (preallocLabelsRefsSlicePool w)) as Hlen.
  destruct (reuseTimeSeriesRW2Slice _ _ _) as [[ts tsPool'] refsPool']. simpl in Hlen.
  intros [= <-]. unfold FromWriteRequestToRW2Request. simpl.
  rewrite list_lookup_insert_eq by (by eapply lookup_lt_Some).
  rewrite decide_True; [done|]. simpl. right. lia.
Qed.

Lemma symbolizeLabels_buffer_indep {T} `{!StringSymbolizer T} labels refs refs' (t : T) :
  elems refs = elems refs' →
  elems (symbolizeLabels labels refs t).1 = elems (symbolizeLabels labels refs' t).1 ∧
  (symbolizeLabels labels refs t).2 = (symbolizeLabels labels refs' t).2.
Proof.
  revert refs refs' t. induction labels as [|l labels IH]; intros refs refs' t Hel; simpl.
  - done.
  - destruct (Symbolize (Name l) t) as [n t1].
    destruct (Symbolize (Value l) t1) as [v t2].
    apply IH. by rewrite !elems_append, Hel.
Qed.

Lemma convertTimeseries_pool_indep tss out out' t pool pool' :
  pool_ok pool → pool_ok pool' →
  Forall2 same_series (elems out) (elems out') →
  match (convertTimeseries tss out t pool).1.1, (convertTimeseries tss out' t pool').1.1 with
  | Some r, Some r' => Forall2 same_series (elems r) (elems r')
  | None, None => True
  | _, _ => False
  end ∧
  (convertTimeseries tss out t pool).1.2 = (convertTimeseries tss out' t pool').1.2.
Proof.
  revert out out' t pool pool'.
  induction tss as [|ots tss IH]; intros out out' t pool pool' Hok Hok' Hsame; simpl.
  - done.
  - destruct ots as [ts|]; [|done].
    destruct (acquireLabelsRefs ts pool) as [refs0 pool1] eqn:Hacq.
    destruct (acquireLabelsRefs ts pool') as [refs0' pool1'] eqn:Hacq'.
    apply (acquireLabelsRefs_empty _ _ _ _ Hok) in Hacq as [Hempty Hok1].
    apply (acquireLabelsRefs_empty _ _ _ _ Hok') in Hacq' as [Hempty' Hok1'].
    destruct (symbolizeLabels_buffer_indep (elems (ts_Labels ts)) refs0 refs0' t)
      as [Hrefs Ht]; [congruence|].
    destruct (symbolizeLabels (elems (ts_Labels ts)) refs0 t) as [refs t1].
    destruct (symbolizeLabels (elems (ts_Labels ts)) refs0' t) as [refs' t1'].
    simpl in Hrefs, Ht. subst t1'.
    destruct (FromExemplarsToExemplarsRW2 (ts_Exemplars ts) t1) as [exs2 t2].
    apply IH; [done..|]. rewrite !elems_append.
    apply Forall2_app; [done|]. by repeat constructor.
Qed.

Lemma convertMetadata_buffer_indep metas out out' t :
  Forall2 same_series (elems out) (elems out') →
  match (convertMetadata metas out t).1, (convertMetadata metas out' t).1 with
  | Some r, Some r' => Forall2 same_series (elems r) (elems r')
  | None, None => True
  | _, _ => False
  end ∧
  (convertMetadata metas out t).2 = (convertMetadata metas out' t).2.
Proof.
  revert out out' t. induction metas as [|meta metas IH]; intros out out' t Hsame; simpl.
  - done.
  - destruct meta as [m|]; [|by destruct (Symbolize _ _)].
    destruct (Symbolize "__name__"%string t) as [nk t1].
    destruct (Symbolize (mm_MetricFamilyName m) t1) as [n t2].
    destruct (Symbolize (mm_Help m) t2) as [h t3].
    destruct (Symbolize (mm_Unit m) t3) as [u t4].
    apply IH. rewrite !elems_append.
    apply Forall2_app; [done|]. by repeat constructor.
Qed.

(** Pooling is transparent: two conversions of the same request that start
    from the same symbols table return requests with the same symbols and the
    same series content, whatever buffers the series pool and the
    label-reference pool hold. *)
Theorem FromWriteRequestToRW2Request_pools_transparent w1 w2 p rw1 cs off :
  convertible w1 p rw1 → convertible w2 p rw1 →
  (symbolsTableFromPool (symbolsPools w1)).1 = (symbolsTableFromPool (symbolsPools w2)).1 →
  ∃ p1 w1' out1 p2 w2' out2,
    FromWriteRequestToRW2Request (Some p) cs off w1 = (Ok (Some p1), w1') ∧
    requests w1' !! p1 = Some out1 ∧
    FromWriteRequestToRW2Request (Some p) cs off w2 = (Ok (Some p2), w2') ∧
    requests w2' !! p2 = Some out2 ∧
    elems (SymbolsRW2 out1) = elems (SymbolsRW2 out2) ∧
    Forall2 same_series (elems (TimeseriesRW2 out1)) (elems (TimeseriesRW2 out2)).
Proof.
  intros (Hp1 & Hsym & Hts & Hser & Hmeta & Hts_ok1 & Hrefs_ok1)
    (Hp2 & _ & _ & _ & _ & Hts_ok2 & Hrefs_ok2) Htable.
  unfold FromWriteRequestToRW2Request. rewrite Hp1, Hp2.
  rewrite !decide_False by lia.
  destruct (symbolsTableFromPool (symbolsPools w1)) as [t0 sp1].
  destruct (symbolsTableFromPool (symbolsPools w2)) as [t0' sp2].
  simpl in Htable. subst t0'.
  destruct (timeSeriesRW2SliceFromPool (preallocTimeseriesRW2SlicePool w1))
    as [buf1 tsPool1] eqn:Hbuf1.
  destruct (timeSeriesRW2SliceFromPool (preallocTimeseriesRW2SlicePool w2))
    as [buf2 tsPool2] eqn:Hbuf2.
  apply (timeSeriesRW2SliceFromPool_empty _ _ _ Hts_ok1) in Hbuf1 as [Hbuf1 _].
  apply (timeSeriesRW2SliceFromPool_empty _ _ _ Hts_ok2) in Hbuf2 as [Hbuf2 _].
  set (n := len (Timeseries rw1) + len (Metadata rw1)).
  set (b1 := if decide (cap buf1 < n) then make n else buf1).
  set (b2 := if decide (cap buf2 < n) then make n else buf2).
  assert (Forall2 same_series (elems b1) (elems b2)) as Hb.
  { unfold b1, b2. repeat case_decide; simpl; rewrite ?Hbuf1, ?Hbuf2; constructor. }
  destruct (convertTimeseries_pool_indep (elems (Timeseries rw1)) b1 b2
              (Symbols.ConfigureCommonSymbols off cs t0)
              (preallocLabelsRefsSlicePool w1) (preallocLabelsRefsSlicePool w2))
    as [Hseries Ht]; [done..|].
  destruct (convertTimeseries_spec (elems (Timeseries rw1)) b1
              (Symbols.ConfigureCommonSymbols off cs t0) (preallocLabelsRefsSlicePool w1)
              Hser Hrefs_ok1) as (o1 & t1 & rp1 & Hconv1 & _).
  destruct (convertTimeseries_spec (elems (Timeseries rw1)) b2
              (Symbols.ConfigureCommonSymbols off cs t0) (preallocLabelsRefsSlicePool w2)
              Hser Hrefs_ok2) as (o2 & t2 & rp2 & Hconv2 & _).
  rewrite Hconv1, Hconv2 in Hseries, Ht |- *.
  simpl in Hseries, Ht. subst t2.
  destruct (convertMetadata_buffer_indep (elems (Metadata rw1)) o1 o2 t1 Hseries) as [Hmd Ht].
  destruct (convertMetadata_spec _ o1 t1 Hmeta) as (r1 & tf1 & Hc1 & _).
  destruct (convertMetadata_spec _ o2 t1 Hmeta) as (r2 & tf2 & Hc2 & _).
  rewrite Hc1, Hc2 in Hmd, Ht |- *. simpl in Hmd, Ht. subst tf2.
  destruct (symbolsSliceFromPool sp1) as [syms1 sp1'].
  destruct (symbolsSliceFromPool sp2) as [syms2 sp2'].
  eexists _, _, _, _, _, _. split; [done|]. split; [by apply list_lookup_middle|].
  split; [done|]. split; [by apply list_lookup_middle|]. by split.
Qed.

(** The exemplar list is allocated once, at its final size: the result has
    as many exemplars as the input and exactly that capacity. *)
Theorem FromExemplarsToExemplarsRW2_exact_size {T} `{!StringSymbolizer T}
    (exemplars : slice Exemplar) (symbols : T) :
  let res := (FromExemplarsToExemplarsRW2 exemplars symbols).1 in
  len res = len exemplars ∧ cap res = len exemplars.
Proof.
  destruct exemplars as [|l sp]; simpl; [done|].
  destruct (convertExemplars_shape l (make (length l)) symbols) as (_ & Hcap & new & Hel & Hnew).
  unfold len in *. simpl in *. split.
  - rewrite Hel. by apply Forall2_length in Hnew.
  - rewrite Hcap; [done..|lia].
Qed.

End mimirpb_properties.

(** * The worked instance, run *)

Section mimirpb_instances.
#[local] Existing Instance example_env.

#[local] Ltac solve_convertible :=
  repeat split; try reflexivity; repeat constructor; by eexists.

(** C6, the claim as worded fails: a label-reference buffer of capacity 201
    holding one reference, 7, still holds it after its release, although the
    claim has every released buffer cleared. *)
Lemma C6_counterexample :
  ¬ (∀ (s : slice ref) (pool : list (slice ref)),
       elems (reuseLabelsRefsSlice s pool).1 = replicate (len s) 0).
Proof.
  intros Hclaim. specialize (Hclaim (slice_mk [7] 200) []).
  vm_compute in Hclaim. discriminate.
Qed.

(** C10, the claim as worded fails: releasing a series buffer of capacity
    10001 whose one element holds a reference buffer of capacity 20 leaves
    the label-reference pool empty, although that buffer meets the pool's
    rules and the claim has it offered. *)
Lemma C10_counterexample :
  ¬ (∀ (s : slice TimeSeriesRW2) tsPool refsPool,
       (reuseTimeSeriesRW2Slice s tsPool refsPool).2 =
         foldl (λ pool e, (reuseLabelsRefsSlice (ts2_LabelsRefs e) pool).2) refsPool (elems s)).
Proof.
  intros Hclaim. specialize (Hclaim oversized_series_buffer [] []).
  vm_compute in Hclaim. discriminate.
Qed.


(** C9, the claim as worded fails: a request with no metadata at all, hence
    no nil metadata entry, whose one series is a nil pointer makes the call
    panic. *)
Lemma C9_counterexample :
  ¬ (∀ (w : World) p rw1 cs off,
       requests w !! p = Some rw1 →
       Forall is_Some (elems (Metadata rw1)) →
       (FromWriteRequestToRW2Request (Some p) cs off w).1 ≠ Panic).
Proof.
  intros Hclaim.
  apply (Hclaim nil_series_world 0 nil_series_request None 0); [reflexivity | constructor |].
  reflexivity.
Qed.

(** C7, the code at a series with eleven label pairs and an empty pool: the
    buffer the series starts appending into is the pool's new buffer of
    capacity 20, not one of capacity 22. *)
Lemma C7_undersized_buffer_kept :
  len (ts_Labels eleven_labels_series) * stringsPerLabel = 22 ∧
  acquireLabelsRefs eleven_labels_series [] = (make 20, []).
Proof. by vm_compute. Qed.

Lemma C1_witness :
  convertible example_world 0 example_request ∧
  ∃ out w',
    FromWriteRequestToRW2Request (Some 0) None 0 example_world
      = (Ok (Some (length (requests example_world))), w') ∧
    requests w' !! length (requests example_world) = Some out ∧
    ∀ i ts, elems (Timeseries example_request) !! i = Some (Some ts) →
      ∃ ts2, elems (TimeseriesRW2 out) !! i = Some ts2 ∧
        len (ts2_LabelsRefs ts2) = 2 * len (ts_Labels ts) ∧
        deref_pairs (elems (SymbolsRW2 out)) (elems (ts2_LabelsRefs ts2))
          = Some (elems (ts_Labels ts)).
Proof.
  split; [solve_convertible|].
  apply (C1_labels_refs_round_trip example_world 0 example_request None 0).
  solve_convertible.
Defined.

Lemma C3_witness :
  convertible example_world 0 example_request ∧
  ∃ out w' real synth,
    FromWriteRequestToRW2Request (Some 0) None 0 example_world
      = (Ok (Some (length (requests example_world))), w') ∧
    requests w' !! length (requests example_world) = Some out ∧
    elems (TimeseriesRW2 out) = real ++ synth ∧
    Forall2 (λ _ ts2, ts2_Metadata ts2 = MetadataRW2_zero)
      (elems (Timeseries example_request)) real ∧
    Forall2 (λ meta ts2, ∃ m, meta = Some m ∧
               synthetic_series (elems (SymbolsRW2 out)) m ts2)
      (elems (Metadata example_request)) synth.
Proof.
  split; [solve_convertible|].
  apply (C3_metadata_becomes_synthetic_series example_world 0 example_request None 0).
  solve_convertible.
Defined.


Lemma C8_witness :
  let res := (FromWriteRequestToRW2Request (Some 0) None 0 example_world).1 in
  let w' := (FromWriteRequestToRW2Request (Some 0) None 0 example_world).2 in
  requests w' !! 0 = Some example_request ∧
  (Forall is_Some (elems (Timeseries example_request)) →
   Forall is_Some (elems (Metadata example_request)) →
     ∃ p' out, res = Ok (Some p') ∧ p' ≠ 0 ∧
       requests w' !! p' = Some out ∧
       Source out = Source example_request ∧
       SkipLabelValidation out = SkipLabelValidation example_request ∧
       SkipLabelCountValidation out = SkipLabelCountValidation example_request ∧
       skipUnmarshalingExemplars out = skipUnmarshalingExemplars example_request) ∧
  (¬ (Forall is_Some (elems (Timeseries example_request)) ∧
      Forall is_Some (elems (Metadata example_request))) →
     res = Panic ∧ requests w' = requests example_world).
Proof.
  apply (C8_control_fields_copied_input_untouched example_world 0 example_request None 0);
    reflexivity.
Defined.

#[local] Ltac solve_pool_bounded :=
  unfold pool_bounded; simpl;
  repeat lazymatch goal with
  | |- True => exact I
  | |- Forall _ [] => apply Forall_nil
  | |- Forall _ (_ :: _) =>
      constructor;
      [ split; [reflexivity|];
        split; [apply Nat.ltb_lt | apply Nat.leb_le]; vm_compute; reflexivity | ]
  end.

#[local] Ltac solve_pools_bounded := split; solve_pool_bounded.

Lemma ReuseRW2_keeps_pools_bounded_witness :
  pools_bounded converted_world ∧
  ∃ w', ReuseRW2 (Some 0) converted_world = Some w' ∧ pools_bounded w'.
Proof.
  split; [solve_pools_bounded|].
  eexists. split; [vm_compute; reflexivity|].
  eapply (ReuseRW2_keeps_pools_bounded converted_world 0);
    [solve_pools_bounded | vm_compute; reflexivity].
Defined.

Lemma acquire_from_bounded_pool_witness :
  (elems (timeSeriesRW2SliceFromPool (preallocTimeseriesRW2SlicePool example_world)).1 = [] ∧
   0 < cap (timeSeriesRW2SliceFromPool (preallocTimeseriesRW2SlicePool example_world)).1
     ≤ maxPreallocatedTimeseriesRW2 ∧
   pool_bounded maxPreallocatedTimeseriesRW2
     (timeSeriesRW2SliceFromPool (preallocTimeseriesRW2SlicePool example_world)).2) ∧
  (elems (labelsRefsSliceFromPool (preallocLabelsRefsSlicePool example_world)).1 = [] ∧
   0 < cap (labelsRefsSliceFromPool (preallocLabelsRefsSlicePool example_world)).1
     ≤ maxPreallocatedLabelsRefs ∧
   pool_bounded maxPreallocatedLabelsRefs
     (labelsRefsSliceFromPool (preallocLabelsRefsSlicePool example_world)).2).
Proof.
  apply (acquire_from_bounded_pool (preallocTimeseriesRW2SlicePool example_world)
           (preallocLabelsRefsSlicePool example_world)); solve_pool_bounded.
Defined.

Lemma reuseTimeSeriesRW2Slice_retained_refs_witness :
  (reuseTimeSeriesRW2Slice (TimeseriesRW2 converted_request) [] []).2 =
    reverse (reslice0 <$> filter retained_refs
               (ts2_LabelsRefs <$> elems (TimeseriesRW2 converted_request))) ++ [].
Proof.
  apply (reuseTimeSeriesRW2Slice_retained_refs (TimeseriesRW2 converted_request) [] []).
  split; [apply Nat.ltb_lt | apply Nat.leb_le]; vm_compute; reflexivity.
Defined.

Lemma FromWriteRequestToRW2Request_consumes_pools_witness :
  let w' := (FromWriteRequestToRW2Request (Some 0) None 0 example_world).2 in
  preallocTimeseriesRW2SlicePool w' = drop 1 (preallocTimeseriesRW2SlicePool example_world) ∧
  preallocLabelsRefsSlicePool w'
    = drop (leading_non_nil (elems (Timeseries example_request)))
        (preallocLabelsRefsSlicePool example_world) ∧
  (Forall is_Some (elems (Timeseries example_request)) →
     preallocLabelsRefsSlicePool w'
       = drop (len (Timeseries example_request)) (preallocLabelsRefsSlicePool example_world)) ∧
  (pools_bounded example_world → pools_bounded w').
Proof.
  apply (FromWriteRequestToRW2Request_consumes_pools example_world 0 example_request None 0);
    reflexivity.
Defined.

Lemma FromWriteRequestToRW2Request_series_buffer_witness :
  convertible example_world 0 example_request ∧
  ∃ out w',
    FromWriteRequestToRW2Request (Some 0) None 0 example_world
      = (Ok (Some (length (requests example_world))), w') ∧
    requests w' !! length (requests example_world) = Some out ∧
    len (TimeseriesRW2 out) = len (Timeseries example_request) + len (Metadata example_request) ∧
    cap (TimeseriesRW2 out) =
      cap (timeSeriesRW2SliceFromPool (preallocTimeseriesRW2SlicePool example_world)).1
        `max` (len (Timeseries example_request) + len (Metadata example_request)) ∧
    Timeseries out = slice_nil ∧ Metadata out = slice_nil.
Proof.
  split; [solve_convertible|].
  apply (FromWriteRequestToRW2Request_series_buffer example_world 0 example_request None 0).
  solve_convertible.
Defined.

Lemma FromWriteRequestToRW2Request_payload_witness :
  convertible example_world 0 example_request ∧
  ∃ out w',
    FromWriteRequestToRW2Request (Some 0) None 0 example_world
      = (Ok (Some (length (requests example_world))), w') ∧
    requests w' !! length (requests example_world) = Some out ∧
    ∀ i ts, elems (Timeseries example_request) !! i = Some (Some ts) →
      ∃ ts2, elems (TimeseriesRW2 out) !! i = Some ts2 ∧
        ts2_Samples ts2 = ts_Samples ts ∧
        ts2_Histograms ts2 = ts_Histograms ts ∧
        ts2_CreatedTimestamp ts2 = ts_CreatedTimestamp ts ∧
        (ts2_Exemplars ts2 = slice_nil ↔ ts_Exemplars ts = slice_nil) ∧
        Forall2 (λ ex ex2, ex2_Value ex2 = ex_Value ex ∧ ex2_Timestamp ex2 = ex_TimestampMs ex)
          (elems (ts_Exemplars ts)) (elems (ts2_Exemplars ts2)).
Proof.
  split; [solve_convertible|].
  apply (FromWriteRequestToRW2Request_payload example_world 0 example_request None 0).
  solve_convertible.
Defined.

Lemma FromWriteRequestToRW2Request_rejects_own_output_witness :
  ∃ p' w',
    FromWriteRequestToRW2Request (Some 0) None 0 example_world = (Ok (Some p'), w') ∧
    FromWriteRequestToRW2Request (Some p') (Some ["__name__"%string]) 7 w'
      = (Err "the provided request is already rw2"%string, w').
Proof.
  apply (FromWriteRequestToRW2Request_rejects_own_output example_world 0 example_request
           None 0 (Some ["__name__"%string]) 7).
  - solve_convertible.
  - apply Nat.ltb_lt. vm_compute. reflexivity.
Defined.

Lemma ReuseRW2_request_still_rw2_witness :
  ∃ w', ReuseRW2 (Some 0) converted_world = Some w' ∧
    FromWriteRequestToRW2Request (Some 0) None 0 w'
      = (Err "the provided request is already rw2"%string, w').
Proof.
  eexists. split; [vm_compute; reflexivity|].
  eapply (ReuseRW2_request_still_rw2 converted_world 0 converted_request).
  - reflexivity.
  - apply Nat.ltb_lt. vm_compute. reflexivity.
  - vm_compute. reflexivity.
Defined.

Lemma FromWriteRequestToRW2Request_pools_transparent_witness :
  ∃ p1 w1' out1 p2 w2' out2,
    FromWriteRequestToRW2Request (Some 0) None 0 example_world = (Ok (Some p1), w1') ∧
    requests w1' !! p1 = Some out1 ∧
    FromWriteRequestToRW2Request (Some 0) None 0 empty_pools_world = (Ok (Some p2), w2') ∧
    requests w2' !! p2 = Some out2 ∧
    elems (SymbolsRW2 out1) = elems (SymbolsRW2 out2) ∧
    Forall2 same_series (elems (TimeseriesRW2 out1)) (elems (TimeseriesRW2 out2)).
Proof.
  apply (FromWriteRequestToRW2Request_pools_transparent example_world empty_pools_world 0
           example_request None 0).
  - solve_convertible.
  - solve_convertible.
  - reflexivity.
Defined.

End mimirpb_instances.
